(** * ThirstIQ: hydration planner and chat intent handling

    A shallow embedding of [project/src/components/Dashboard.tsx]: the
    schedule generator [generateTasks], the goal computation inside
    [calculateHydrationNeeds], the task-completion handler
    [handleTaskCompletion], and the chat handler [handleSendMessage] with the
    weather fetch [fetchWeather] it awaits.

    Conventions of the embedding.
    - JavaScript numbers are the rationals they denote ([Z] where the value
      is an integer, [Q] otherwise); integers are taken exactly, without the
      53-bit limit, and there is no overflow and no NaN.  The quotient and
      the product of the progress percentage are rounded to the nearest
      binary64 number by [fl], as the division and the multiplication of
      doubles do; the other fractional values (the eighth of the goal, 1.5
      times the index, 59 times the random number, the reported temperature)
      are taken exactly.
    - A string is its sequence of UTF-16 code units ([list N]).
    - The component's [useState] cells form the record [State]; a setter call
      is a record update, handlers are state transformers.  The toast
      notifications are kept as a log inside the state.
    - The wall clock, the local time-zone offset and the results of
      [Math.random()] come from a [World] record handed to each event; an
      event reads the clock once.
    - [handleSendMessage] is asynchronous: it is split at its [await] into
      the part that runs on submission and the continuation that runs when
      the request settles, so that other events may come in between. *)

From Stdlib Require Import ZArith QArith Qround Qpower List Bool Lia Lqa String Ascii.
From Stdlib Require Import Sorted Permutation.
From Stdlib Require DecimalString DecimalNat Floats.SpecFloat.
Import ListNotations.
Open Scope Z_scope.

(* ================================================================== *)
(** * Part I: definitions *)
(* ================================================================== *)

(** ** Numbers *)

(** [Math.round]: nearest integer, ties towards +infinity. *)
Definition Math_round (x : Q) : Z := Qfloor (x + (1 # 2)).

(** [Math.floor]. *)
Definition Math_floor (x : Q) : Z := Qfloor x.

(** [ToIntegerOrInfinity] on a finite number: truncation towards zero. *)
Definition ToIntegerOrInfinity (x : Q) : Z := Z.quot (Qnum x) (Z.pos (Qden x)).

(** ** Doubles

    The binary64 number nearest to a rational, ties to the even significand:
    the result of a correctly rounded operation whose exact value is [x].
    The exponent range is not bounded (no subnormal, no infinity); the values
    rounded here are quotients of integers and their products with 100. *)

(** [2^e] *)
Definition pow2 (e : Z) : Q := (2 ^ e)%Q.

(** The exponent of the leading bit of [n / d]: [floor(log2(n / d))]. *)
Definition ilog2 (n d : positive) : Z :=
  let k := Z.log2 (Z.pos n) - Z.log2 (Z.pos d) in
  if Qle_bool (pow2 k) (Z.pos n # d) then k else k - 1.

(** The nearest integer, ties to even. *)
Definition roundTiesToEven (x : Q) : Z :=
  let f := Qfloor x in
  match (x - inject_Z f ?= 1 # 2)%Q with
  | Lt => f
  | Gt => f + 1
  | Eq => if Z.even f then f else f + 1
  end.

(** The double nearest to [n / d]: a significand of 53 bits, that is an
    integer in [[2^52, 2^53]], times the power of two that puts the leading
    bit of [n / d] at bit 52. *)
Definition round53 (n d : positive) : Q :=
  let e := ilog2 n d - 52 in
  (inject_Z (roundTiesToEven ((Z.pos n # d) * pow2 (- e))) * pow2 e)%Q.

Definition fl (x : Q) : Q :=
  match Qnum x with
  | 0 => 0%Q
  | Z.pos n => round53 n (Qden x)
  | Z.neg n => (- round53 n (Qden x))%Q
  end.

(** [x / y] and [x * y] on doubles.  (For [y = 0] the quotient would be
    infinite or NaN; here it is 0.) *)
Definition fdiv (x y : Q) : Q := fl (x / y).
Definition fmul (x y : Q) : Q := fl (x * y).

(** The same operations as the standard library specifies them for IEEE 754
    ([SpecFloat], precision 53, maximal exponent 1024), to compare [fdiv] and
    [fmul] with on given numbers. *)
Definition SFofZ (z : Z) : SpecFloat.spec_float :=
  SpecFloat.binary_normalize 53 1024 z 0 false.

Definition SF2Q (f : SpecFloat.spec_float) : Q :=
  match f with
  | SpecFloat.S754_finite s m e =>
      ((if s then -1 else 1) * inject_Z (Z.pos m) * pow2 e)%Q
  | _ => 0%Q
  end.

Definition SFprogress (total goal : Z) : Q :=
  SF2Q (SpecFloat.SFmul 53 1024 (SpecFloat.SFdiv 53 1024 (SFofZ total) (SFofZ goal))
          (SFofZ 100)).

(** ** Strings *)

Definition jsstring : Type := list N.

(** The code units of an ASCII literal. *)
Definition lit (s : string) : jsstring := map N_of_ascii (list_ascii_of_string s).

Definition jsstring_eq_dec (a b : jsstring) : {a = b} + {a <> b} :=
  list_eq_dec N.eq_dec a b.

(** [a === b] on strings. *)
Definition str_eqb (a b : jsstring) : bool :=
  if jsstring_eq_dec a b then true else false.

(** [Number.prototype.toString] on a natural number: decimal digits. *)
Definition Number_toString (n : nat) : jsstring :=
  lit (DecimalString.NilZero.string_of_uint (Nat.to_uint n)).

(** ** Dates

    A [Date] is its time value: milliseconds since the epoch, UTC.  Local time
    is the time value shifted by the offset [LocalTZA], taken constant (no
    daylight-saving change during the day at hand).  The following are the
    abstract operations of the ECMAScript specification. *)

Definition msPerSecond : Z := 1000.
Definition msPerMinute : Z := 60000.
Definition msPerHour : Z := 3600000.
Definition msPerDay : Z := 86400000.

Definition Day (t : Z) : Z := t / msPerDay.
Definition HourFromTime (t : Z) : Z := (t / msPerHour) mod 24.
Definition MinFromTime (t : Z) : Z := (t / msPerMinute) mod 60.
Definition SecFromTime (t : Z) : Z := (t / msPerSecond) mod 60.
Definition msFromTime (t : Z) : Z := t mod msPerSecond.

Definition MakeTime (hour min sec ms : Z) : Z :=
  hour * msPerHour + min * msPerMinute + sec * msPerSecond + ms.
Definition MakeDate (day time : Z) : Z := day * msPerDay + time.

Definition Date : Type := Z.

Section LocalTime.
Variable LocalTZA : Z.

Definition LocalTime (t : Z) : Z := t + LocalTZA.
Definition UTC (t : Z) : Z := t - LocalTZA.

(** [d.setHours(hour)] *)
Definition setHours (d : Date) (hour : Q) : Date :=
  let t := LocalTime d in
  UTC (MakeDate (Day t)
         (MakeTime (ToIntegerOrInfinity hour) (MinFromTime t) (SecFromTime t) (msFromTime t))).

(** [d.setMinutes(min)] *)
Definition setMinutes (d : Date) (min : Q) : Date :=
  let t := LocalTime d in
  UTC (MakeDate (Day t)
         (MakeTime (HourFromTime t) (ToIntegerOrInfinity min) (SecFromTime t) (msFromTime t))).

(** [d.getHours()] and [d.getMinutes()] *)
Definition getHours (d : Date) : Z := HourFromTime (LocalTime d).
Definition getMinutes (d : Date) : Z := MinFromTime (LocalTime d).
End LocalTime.

(** [d.getTime()] *)
Definition getTime (d : Date) : Z := d.

(** ** [Array.prototype.sort]

    The language specification requires a stable sort; with a consistent
    comparator the result does not depend on the algorithm.  It is modelled by
    a stable insertion sort: [x] is placed before the first [y] with
    [cmp x y <= 0]. *)

Section Sort.
Context {A : Type}.
Variable cmp : A -> A -> Z.

Fixpoint sort_insert (x : A) (l : list A) : list A :=
  match l with
  | [] => [x]
  | y :: l' => if cmp x y <=? 0 then x :: y :: l' else y :: sort_insert x l'
  end.

Definition Array_sort (l : list A) : list A := fold_right sort_insert [] l.
End Sort.

(** A comparator [(a, b) => key(a) - key(b)] and the order it sorts into. *)
Definition compareBy {A : Type} (key : A -> Z) (a b : A) : Z := key a - key b.
Definition ascendingBy {A : Type} (key : A -> Z) (a b : A) : Prop := key a <= key b.

(** ** The data of the component *)

Record WeatherData : Type := mkWeatherData {
  temp : Z;
  humidity : Z;
  description : jsstring
}.

Record WaterTask : Type := mkWaterTask {
  id : jsstring;
  time : Date;
  amount : Z;
  completed : bool
}.

(** What the outside world supplies to an event handler: the clock reading
    ([new Date()], [Date.now()]), the local time-zone offset, and the
    successive results of [Math.random()]. *)
Record World : Type := mkWorld {
  clock : Z;
  LocalTZA : Z;
  random : nat -> Q
}.

(** ** [generateTasks] *)

Definition tasksCount : nat := 8.

(** [Math.round(dailyGoal / tasksCount)] *)
Definition amountPerTask (dailyGoal : Z) : Z :=
  Math_round (inject_Z dailyGoal / inject_Z (Z.of_nat tasksCount)).

(** The body of the [for] loop at index [i]: the task that is pushed.  The
    [i]-th iteration makes the [i]-th call of [Math.random()]. *)
Definition loopTask (w : World) (dailyGoal : Z) (i : nat) : WaterTask :=
  let now := clock w in
  let taskTime := now in
  let taskTime :=
    setHours (LocalTZA w) taskTime
      (inject_Z (9 + Math_floor (inject_Z (Z.of_nat i) * (12 / inject_Z (Z.of_nat tasksCount))))) in
  let taskTime := setMinutes (LocalTZA w) taskTime (random w i * 59) in
  {| id := lit "task-" ++ Number_toString i;
     time := taskTime;
     amount := amountPerTask dailyGoal;
     completed := false |}.

Definition generateTasks (w : World) (dailyGoal : Z) : list WaterTask :=
  let tasks := map (loopTask w dailyGoal) (seq 0 tasksCount) in
  Array_sort (fun a b => getTime (time a) - getTime (time b)) tasks.

(** ** The goal computed by [calculateHydrationNeeds]

    [roundedIntake] is the value the function stores with [setDailyGoal]. *)
Definition roundedIntake (weatherData : WeatherData) : Z :=
  let baseIntake := 2000 in
  let baseIntake :=
    if temp weatherData >? 25 then baseIntake + (temp weatherData - 25) * 50 else baseIntake in
  let baseIntake :=
    if humidity weatherData >? 60 then baseIntake + (humidity weatherData - 60) * 20
    else baseIntake in
  Math_round (inject_Z baseIntake).

(** ** Character classes and the two regular expressions of the chat handler *)

(** [\d] *)
Definition isDigit (c : N) : bool := ((48 <=? c) && (c <=? 57))%N.

(** [[a-zA-Z]] *)
Definition isAsciiLetter (c : N) : bool :=
  (((97 <=? c) && (c <=? 122)) || ((65 <=? c) && (c <=? 90)))%N.

(** [\s], which is also the set that [String.prototype.trim] strips: the
    WhiteSpace and LineTerminator code points. *)
Definition isWhiteSpace (c : N) : bool :=
  (((9 <=? c) && (c <=? 13)) || (c =? 32) || (c =? 160) || (c =? 5760)
   || ((8192 <=? c) && (c <=? 8202)) || (c =? 8232) || (c =? 8233)
   || (c =? 8239) || (c =? 8287) || (c =? 12288) || (c =? 65279))%N.

Fixpoint dropWhile (p : N -> bool) (s : jsstring) : jsstring :=
  match s with
  | c :: s' => if p c then dropWhile p s' else s
  | [] => []
  end.

Fixpoint takeWhile (p : N -> bool) (s : jsstring) : jsstring :=
  match s with
  | c :: s' => if p c then c :: takeWhile p s' else []
  | [] => []
  end.

(** [s.trim()] *)
Definition trim (s : jsstring) : jsstring :=
  List.rev (dropWhile isWhiteSpace (List.rev (dropWhile isWhiteSpace s))).

(** Truthiness of a string: non-empty. *)
Definition truthy (s : jsstring) : bool :=
  match s with [] => false | _ :: _ => true end.

(** [s.match(/^[a-zA-Z\s]+$/)] is not null. *)
Definition matchLocation (s : jsstring) : bool :=
  truthy s && forallb (fun c => isAsciiLetter c || isWhiteSpace c) s.

Definition startsWith (p s : jsstring) : bool :=
  if jsstring_eq_dec (firstn (List.length p) s) p then true else false.

(** [(ml|ML|mL)] at the head of [s]. *)
Definition matchUnit (s : jsstring) : bool :=
  startsWith (lit "ml") s || startsWith (lit "ML") s || startsWith (lit "mL") s.

(** [\s*(ml|ML|mL)] at the head of [s]. *)
Fixpoint matchSpacesUnit (s : jsstring) : bool :=
  matchUnit s ||
  match s with
  | c :: s' => isWhiteSpace c && matchSpacesUnit s'
  | [] => false
  end.

(** [\d+\s*(ml|ML|mL)] at the head of [s]. *)
Fixpoint matchVolumeHere (s : jsstring) : bool :=
  match s with
  | c :: s' => isDigit c && (matchVolumeHere s' || matchSpacesUnit s')
  | [] => false
  end.

(** [s.match(/\d+\s*(ml|ML|mL)/)] is not null: the pattern matches at some
    position of [s]. *)
Fixpoint matchVolume (s : jsstring) : bool :=
  matchVolumeHere s ||
  match s with
  | _ :: s' => matchVolume s'
  | [] => false
  end.

(** [s.match(/\d+/)?.[0]]: the leftmost, longest run of digits; [None] stands
    for [undefined]. *)
Definition firstDigitRun (s : jsstring) : option jsstring :=
  match dropWhile (fun c => negb (isDigit c)) s with
  | [] => None
  | r => Some (takeWhile isDigit r)
  end.

(** [x || d] for an optional string [x]: [undefined] and the empty string are
    falsy. *)
Definition orDefault (x : option jsstring) (d : jsstring) : jsstring :=
  match x with
  | Some (c :: r) => c :: r
  | _ => d
  end.

Definition digitValue (c : N) : Z := Z.of_N c - 48.

(** [parseInt(s)] for a string beginning with a decimal digit: the value of its
    leading digit run.  (Leading blanks, signs, the [0x] prefix and the [NaN]
    result are not modelled; the handler only passes a digit run or ["0"].) *)
Definition parseInt (s : jsstring) : Z :=
  fold_left (fun acc c => acc * 10 + digitValue c) (takeWhile isDigit s) 0.

(** [parseInt(userMessage.match(/\d+/)?.[0] || '0')] *)
Definition loggedAmount (userMessage : jsstring) : Z :=
  parseInt (orDefault (firstDigitRun userMessage) (lit "0")).

(** The decision taken by the [if / else if / else] chain of
    [handleSendMessage] on the trimmed line. *)
Inductive Intent : Type :=
| Location (name : jsstring)
| VolumeLog (amountMilliliters : Z)
| Unrecognized.

Definition classify (userMessage : jsstring) : Intent :=
  if matchLocation userMessage then Location userMessage
  else if matchVolume userMessage then VolumeLog (loggedAmount userMessage)
  else Unrecognized.

(** ** Messages, notifications and the component state *)

Inductive MessageType : Type := user | bot.

(** The text of a chat message: what the user typed, or one of the
    assistant's templates with the values interpolated into it. *)
Inductive Content : Type :=
| UserText (text : jsstring)
| Greeting
| AskLocation
| WeatherReport (location : jsstring) (temp humidity : Z) (description : jsstring)
| Recommendation (roundedIntake : Z)
| ServiceTrouble
| LocationUnknown
| WeatherTrouble
| TryAnother
| GoalReached (dailyGoal : Z)
| Logged (amount total percent : Z)
| Help.

Record Message : Type := mkMessage {
  msg_id : Z;              (* [Date.now().toString()] *)
  type : MessageType;
  content : Content;
  timestamp : Date
}.

(** The message records appended by the handlers at clock reading [clock w]. *)
Definition userMsg (w : World) (text : jsstring) : Message :=
  mkMessage (clock w) user (UserText text) (clock w).
Definition botMsg (w : World) (c : Content) : Message :=
  mkMessage (clock w) bot c (clock w).

Inductive Toast : Type :=
| ToastInvalidKey
| ToastNotFound
| ToastCouldNotFetch
| ToastTaskDone (amount : Z).

(** How the request of [fetchWeather] settles.  [Fulfilled] carries
    [main.temp], [main.humidity] and [weather[0].description] of the body;
    [AxiosError] carries [error.response?.status]; [OtherError] is any other
    exception raised inside the [try]. *)
Inductive Response : Type :=
| Fulfilled (main_temp : Q) (main_humidity : Z) (weather0_description : jsstring)
| AxiosError (status : option Z)
| OtherError.

Record State : Type := mkState {
  messages : list Message;
  input : jsstring;
  isLoading : bool;
  weather : option WeatherData;
  waterIntake : Z;
  dailyGoal : Z;
  waterTasks : list WaterTask;
  currentLocation : jsstring;
  (** the notifications shown so far *)
  toasts : list Toast;
  (** the location of the request [handleSendMessage] is suspended on *)
  awaiting : option jsstring
}.

Definition setMessages (f : list Message -> list Message) (st : State) : State :=
  mkState (f (messages st)) (input st) (isLoading st) (weather st) (waterIntake st)
    (dailyGoal st) (waterTasks st) (currentLocation st) (toasts st) (awaiting st).
Definition setInput (v : jsstring) (st : State) : State :=
  mkState (messages st) v (isLoading st) (weather st) (waterIntake st)
    (dailyGoal st) (waterTasks st) (currentLocation st) (toasts st) (awaiting st).
Definition setIsLoading (v : bool) (st : State) : State :=
  mkState (messages st) (input st) v (weather st) (waterIntake st)
    (dailyGoal st) (waterTasks st) (currentLocation st) (toasts st) (awaiting st).
Definition setWeather (v : option WeatherData) (st : State) : State :=
  mkState (messages st) (input st) (isLoading st) v (waterIntake st)
    (dailyGoal st) (waterTasks st) (currentLocation st) (toasts st) (awaiting st).
Definition setWaterIntake (f : Z -> Z) (st : State) : State :=
  mkState (messages st) (input st) (isLoading st) (weather st) (f (waterIntake st))
    (dailyGoal st) (waterTasks st) (currentLocation st) (toasts st) (awaiting st).
Definition setDailyGoal (v : Z) (st : State) : State :=
  mkState (messages st) (input st) (isLoading st) (weather st) (waterIntake st)
    v (waterTasks st) (currentLocation st) (toasts st) (awaiting st).
Definition setWaterTasks (f : list WaterTask -> list WaterTask) (st : State) : State :=
  mkState (messages st) (input st) (isLoading st) (weather st) (waterIntake st)
    (dailyGoal st) (f (waterTasks st)) (currentLocation st) (toasts st) (awaiting st).
Definition setCurrentLocation (v : jsstring) (st : State) : State :=
  mkState (messages st) (input st) (isLoading st) (weather st) (waterIntake st)
    (dailyGoal st) (waterTasks st) v (toasts st) (awaiting st).
Definition toast (t : Toast) (st : State) : State :=
  mkState (messages st) (input st) (isLoading st) (weather st) (waterIntake st)
    (dailyGoal st) (waterTasks st) (currentLocation st) (toasts st ++ [t]) (awaiting st).
Definition setAwaiting (v : option jsstring) (st : State) : State :=
  mkState (messages st) (input st) (isLoading st) (weather st) (waterIntake st)
    (dailyGoal st) (waterTasks st) (currentLocation st) (toasts st) v.

(** ** The handlers of [Dashboard] *)

Definition addBotMessage (w : World) (c : Content) (st : State) : State :=
  setMessages (fun prev => prev ++ [botMsg w c]) st.

Definition calculateHydrationNeeds (w : World) (weatherData : WeatherData) (st : State) : State :=
  let roundedIntake := roundedIntake weatherData in
  let st := setDailyGoal roundedIntake st in
  let st := setWaterTasks (fun _ => generateTasks w roundedIntake) st in
  addBotMessage w (Recommendation roundedIntake) st.

(** [fetchWeather] up to its [await]: the loading flag is raised and the
    request is sent. *)
Definition fetchWeather_request (st : State) : State := setIsLoading true st.

(** [fetchWeather] from the point where the request settles with [r]: the
    rest of the [try] block or the [catch] block, then [finally].  The second
    component is the returned value, [None] for [null]. *)
Definition fetchWeather_settle (w : World) (location : jsstring) (r : Response) (st : State)
  : State * option WeatherData :=
  match r with
  | Fulfilled main_temp main_humidity weather0_description =>
      let weatherData := mkWeatherData (Math_round main_temp) main_humidity weather0_description in
      let st := setWeather (Some weatherData) st in
      let st := setCurrentLocation location st in
      let st := calculateHydrationNeeds w weatherData st in
      let st :=
        addBotMessage w
          (WeatherReport location (temp weatherData) (humidity weatherData)
             (description weatherData)) st in
      (setIsLoading false st, Some weatherData)
  | AxiosError status =>
      let hasStatus code := match status with Some s => s =? code | None => false end in
      let st :=
        if hasStatus 401 then addBotMessage w ServiceTrouble (toast ToastInvalidKey st)
        else if hasStatus 404 then addBotMessage w LocationUnknown (toast ToastNotFound st)
        else addBotMessage w WeatherTrouble (toast ToastCouldNotFetch st) in
      (setIsLoading false st, None)
  | OtherError => (setIsLoading false st, None)
  end.

(** The callback handed to [prev.map] in [handleTaskCompletion]: it returns
    the new task and, on a matching task not yet completed, calls
    [setWaterIntake] and [toast.success]. *)
Definition completionCallback (taskId : jsstring) (task : WaterTask) (st : State)
  : WaterTask * State :=
  if str_eqb (id task) taskId then
    let st :=
      if negb (completed task) then
        toast (ToastTaskDone (amount task))
          (setWaterIntake (fun prev => prev + amount task) st)
      else st in
    (mkWaterTask (id task) (time task) (amount task) true, st)
  else (task, st).

(** [Array.prototype.map] with a callback that has effects on the state. *)
Fixpoint Array_map_st {A B : Type} (f : A -> State -> B * State) (l : list A) (st : State)
  : list B * State :=
  match l with
  | [] => ([], st)
  | x :: l' =>
      let '(y, st1) := f x st in
      let '(ys, st2) := Array_map_st f l' st1 in
      (y :: ys, st2)
  end.

(** The updater given to [setWaterTasks] is applied once to the current batch;
    the [setWaterIntake] updaters it enqueues are applied in order. *)
Definition handleTaskCompletion (taskId : jsstring) (st : State) : State :=
  let '(tasks, st1) := Array_map_st (completionCallback taskId) (waterTasks st) st in
  setWaterTasks (fun _ => tasks) st1.

(** [handleSendMessage] up to the point where it suspends on
    [await fetchWeather(userMessage)]; on the other two branches this is the
    whole handler.  [waterIntake st] and [dailyGoal st] are the values the
    handler closes over; [progress] is computed in doubles.  (With
    [dailyGoal st = 0] the quotient would be infinite in JavaScript; the goal
    is never below 2000, see [dailyGoal_ge_2000].) *)
Definition handleSendMessage (w : World) (st : State) : State :=
  if negb (truthy (trim (input st))) || isLoading st then st
  else
    let userMessage := trim (input st) in
    let st1 := setInput [] st in
    let st2 :=
      setMessages (fun prev => prev ++ [userMsg w userMessage]) st1 in
    if matchLocation userMessage then
      setAwaiting (Some userMessage) (fetchWeather_request st2)
    else if matchVolume userMessage then
      let amount := loggedAmount userMessage in
      let st3 := setWaterIntake (fun prev => prev + amount) st2 in
      let progress :=
        fmul (fdiv (inject_Z (waterIntake st + amount)) (inject_Z (dailyGoal st))) 100 in
      if Qle_bool 100 progress then addBotMessage w (GoalReached (dailyGoal st)) st3
      else
        addBotMessage w
          (Logged amount (waterIntake st + amount) (Math_round progress)) st3
    else addBotMessage w Help st2.

(** The continuation of [handleSendMessage] once the awaited request has
    settled with [r]. *)
Definition handleSendMessage_resume (w : World) (r : Response) (st : State) : State :=
  match awaiting st with
  | None => st
  | Some userMessage =>
      let '(st1, weatherData) := fetchWeather_settle w userMessage r (setAwaiting None st) in
      match weatherData with
      | None => addBotMessage w TryAnother st1
      | Some _ => st1
      end
  end.

(** ** Sessions *)

(** The state after mounting: the [useState] defaults and the two greetings of
    the mount effect. *)
Definition defaultState : State :=
  mkState [] [] false None 0 2000 [] [] [] None.

Definition init (w : World) : State :=
  addBotMessage w AskLocation (addBotMessage w Greeting defaultState).

Inductive Event : Type :=
| InputChange (value : jsstring)      (* [onChange] of the text field *)
| FormSubmit                          (* [onSubmit] of the form *)
| FetchSettled (r : Response)         (* the pending request settles *)
| TaskClick (taskId : jsstring).      (* [onClick] of a task's button *)

Definition step (st : State) (e : World * Event) : State :=
  let '(w, ev) := e in
  match ev with
  | InputChange value => setInput value st
  | FormSubmit => handleSendMessage w st
  | FetchSettled r => handleSendMessage_resume w r st
  | TaskClick taskId => handleTaskCompletion taskId st
  end.

Definition run (st : State) (evs : list (World * Event)) : State :=
  fold_left step evs st.

Inductive reachable : State -> Prop :=
| reachable_init w : reachable (init w)
| reachable_step st e : reachable st -> reachable (step st e).

(** ** The volume pattern in the words of the specification

    "A sequence of digits followed (anywhere later, case-insensitive) by the
    literal unit token ml". *)

Definition isM (c : N) : bool := ((c =? 109) || (c =? 77))%N.
Definition isL (c : N) : bool := ((c =? 108) || (c =? 76))%N.

Fixpoint containsUnitAnyCase (s : jsstring) : bool :=
  match s with
  | c1 :: s' =>
      match s' with
      | c2 :: _ => (isM c1 && isL c2) || containsUnitAnyCase s'
      | [] => false
      end
  | [] => false
  end.

Fixpoint digitsThenUnitAnywhere (s : jsstring) : bool :=
  match s with
  | c :: s' => (isDigit c && containsUnitAnyCase s') || digitsThenUnitAnywhere s'
  | [] => false
  end.

Definition sumAmounts (l : list WaterTask) : Z :=
  fold_right (fun t acc => amount t + acc) 0 l.

(** ** The effect of a task completion, as a pure function

    [markCompleted] is the array the [map] of [handleTaskCompletion] returns;
    [pendingAmounts] lists the amounts of the tasks for which its callback
    calls [setWaterIntake]; [completeTask] pairs the new batch with the sum of
    these amounts, the increase of the intake. *)

Definition markCompleted (taskId : jsstring) (batch : list WaterTask) : list WaterTask :=
  map (fun task =>
         if str_eqb (id task) taskId
         then mkWaterTask (id task) (time task) (amount task) true
         else task) batch.

Definition pendingAmounts (taskId : jsstring) (batch : list WaterTask) : list Z :=
  map amount (filter (fun task => str_eqb (id task) taskId && negb (completed task)) batch).

Definition Zsum (l : list Z) : Z := fold_right Z.add 0 l.

Definition completeTask (batch : list WaterTask) (taskId : jsstring) : list WaterTask * Z :=
  (markCompleted taskId batch, Zsum (pendingAmounts taskId batch)).

(** A request that did not deliver a usable body. *)
Definition isFailure (r : Response) : bool :=
  match r with
  | Fulfilled _ _ _ => false
  | AxiosError _ | OtherError => true
  end.

(** The invariant of a session: the goal is at least 2000 and no task has a
    negative amount. *)
Definition Inv (st : State) : Prop :=
  2000 <= dailyGoal st /\ Forall (fun t => 0 <= amount t) (waterTasks st).

(** ** The location pattern in the words of the specification

    "Only letters and whitespace (no digits, no punctuation other than
    spaces)".  A letter is taken here as a letter of the basic Latin alphabet
    or of the Latin-1 Supplement (U+00C0 to U+00FF without the signs U+00D7
    and U+00F7), which is enough to tell the reading from the code's. *)

Definition isLetter (c : N) : bool :=
  (isAsciiLetter c
   || ((192 <=? c) && (c <=? 255) && negb (c =? 215) && negb (c =? 247)))%N.

Definition lettersAndWhitespaceOnly (s : jsstring) : bool :=
  truthy s && forallb (fun c => isLetter c || isWhiteSpace c) s.

(** ** The integer a digit run denotes

    The decimal numeral made of the digits of the run, read by the standard
    library ([Nat.of_uint]). *)

Definition digitOf (c : N) (d : Decimal.uint) : Decimal.uint :=
  match c with
  | 48%N => Decimal.D0 d
  | 49%N => Decimal.D1 d
  | 50%N => Decimal.D2 d
  | 51%N => Decimal.D3 d
  | 52%N => Decimal.D4 d
  | 53%N => Decimal.D5 d
  | 54%N => Decimal.D6 d
  | 55%N => Decimal.D7 d
  | 56%N => Decimal.D8 d
  | 57%N => Decimal.D9 d
  | _ => d
  end.

Fixpoint digitsToUint (s : jsstring) : Decimal.uint :=
  match s with
  | [] => Decimal.Nil
  | c :: r => digitOf c (digitsToUint r)
  end.

Definition integerValue (s : jsstring) : Z := Z.of_nat (Nat.of_uint (digitsToUint s)).

(** ** What the volume expression denotes

    The strings matched by [/\d+\s*(ml|ML|mL)/]: some digits, then blanks
    only, then one of the three spellings of the unit, anywhere in the line. *)

Definition isUnit (u : jsstring) : Prop :=
  u = lit "ml" \/ u = lit "ML" \/ u = lit "mL".

Definition VolumePattern (s : jsstring) : Prop :=
  exists pre ds ws u post,
    s = pre ++ ds ++ ws ++ u ++ post
    /\ ds <> [] /\ forallb isDigit ds = true
    /\ forallb isWhiteSpace ws = true /\ isUnit u.

(** [run] is the first digit run of [s]: no digit before it, no digit right
    after it. *)
Definition FirstDigitRun (s run : jsstring) : Prop :=
  exists pre post,
    s = pre ++ run ++ post
    /\ forallb (fun c => negb (isDigit c)) pre = true
    /\ run <> [] /\ forallb isDigit run = true
    /\ match post with c :: _ => isDigit c = false | [] => True end.

(** ** The guards of the view and sequences of clicks *)

(** [disabled={isLoading || !input.trim()}] of the send button. *)
Definition sendDisabled (st : State) : bool :=
  isLoading st || negb (truthy (trim (input st))).

(** [disabled={task.completed}] of a task's button. *)
Definition taskButtonDisabled (task : WaterTask) : bool := completed task.

(** Clicking the buttons of the tasks [ids], one after the other. *)
Definition clickAll (ids : list jsstring) (st : State) : State :=
  fold_left (fun s taskId => handleTaskCompletion taskId s) ids st.

(** The task's id is among the clicked ones. *)
Definition clicked (ids : list jsstring) (task : WaterTask) : bool :=
  existsb (str_eqb (id task)) ids.

(** The tasks of a batch that are not completed and get clicked. *)
Definition pendingClicked (ids : list jsstring) (batch : list WaterTask) : list WaterTask :=
  filter (fun task => negb (completed task) && clicked ids task) batch.

(** The batch with every clicked task marked as completed. *)
Definition markClicked (ids : list jsstring) (batch : list WaterTask) : list WaterTask :=
  map (fun task =>
         if clicked ids task
         then mkWaterTask (id task) (time task) (amount task) true
         else task) batch.

(** An event other than the arrival of an observation. *)
Definition noObservation (ev : Event) : Prop :=
  match ev with
  | FetchSettled (Fulfilled _ _ _) => False
  | _ => True
  end.

(** ** What holds of the state throughout a session *)

(** The panel shows a goal and a batch that belong to the stored observation:
    before the first observation the defaults, afterwards the goal computed
    from it and eight tasks of the rounded eighth each, with distinct ids. *)
Definition Consistent (st : State) : Prop :=
  match weather st with
  | None => dailyGoal st = 2000 /\ waterTasks st = [] /\ currentLocation st = []
  | Some weatherData =>
      dailyGoal st = roundedIntake weatherData
      /\ List.length (waterTasks st) = 8%nat
      /\ Forall (fun t => amount t = amountPerTask (dailyGoal st)) (waterTasks st)
  end
  /\ NoDup (map id (waterTasks st))
  /\ 0 <= waterIntake st.

(** The loading flag is up exactly while a request is awaited. *)
Definition LoadingCoherent (st : State) : Prop :=
  isLoading st = true <-> awaiting st <> None.

(* ================================================================== *)
(** * Part II: properties *)
(* ================================================================== *)

(** ** Rounding *)

Lemma Math_round_inject_Z (z : Z) : Math_round (inject_Z z) = z.
Proof.
  unfold Math_round, Qfloor, inject_Z, Qplus. cbn [Qnum Qden].
  replace (z * 2 + 1 * 1) with (1 + z * 2) by ring.
  change (Z.pos (1 * 2)) with 2.
  rewrite Z.div_add by lia. reflexivity.
Qed.

Lemma amountPerTask_div (g : Z) : amountPerTask g = (g + 4) / 8.
Proof.
  unfold amountPerTask, Math_round, Qfloor, tasksCount.
  cbn [Z.of_nat]. unfold Qdiv, Qinv, Qmult, Qplus, inject_Z. cbn.
  replace (g * 1 * 2 + 8) with ((g + 4) * 2) by ring.
  change 16 with (8 * 2).
  apply Z.div_mul_cancel_r; lia.
Qed.

Lemma amountPerTask_bounds (g : Z) : g - 3 <= 8 * amountPerTask g <= g + 4.
Proof.
  rewrite amountPerTask_div.
  pose proof (Z.div_mod (g + 4) 8 ltac:(lia)).
  pose proof (Z.mod_pos_bound (g + 4) 8 ltac:(lia)).
  lia.
Qed.

Lemma ToIntegerOrInfinity_inject_Z (z : Z) : ToIntegerOrInfinity (inject_Z z) = z.
Proof. unfold ToIntegerOrInfinity, inject_Z. cbn. apply Z.quot_1_r. Qed.

Lemma ToIntegerOrInfinity_floor (x : Q) :
  (0 <= x)%Q -> ToIntegerOrInfinity x = Qfloor x.
Proof.
  destruct x as [n d]. unfold Qle, ToIntegerOrInfinity, Qfloor. cbn. intros H.
  apply Z.quot_div_nonneg; lia.
Qed.

Lemma random_minute_range (r : Q) :
  (0 <= r)%Q -> (r < 1)%Q -> 0 <= ToIntegerOrInfinity (r * 59) <= 58.
Proof.
  destruct r as [n d]. unfold Qle, Qlt, ToIntegerOrInfinity, Qmult. cbn.
  intros H0 H1.
  rewrite Z.quot_div_nonneg by lia.
  rewrite Pos.mul_1_r.
  split.
  - apply Z.div_pos; lia.
  - assert (n * 59 / Z.pos d < 59); [apply Z.div_lt_upper_bound; lia | lia].
Qed.

(** ** Doubles *)

Lemma pow2_pos (e : Z) : (0 < pow2 e)%Q.
Proof. apply Qpower_0_lt. reflexivity. Qed.

Lemma pow2_add (a b : Z) : pow2 (a + b) == pow2 a * pow2 b.
Proof. apply Qpower_plus. discriminate. Qed.

Lemma pow2_le (a b : Z) : a <= b -> (pow2 a <= pow2 b)%Q.
Proof. intros H. apply Qpower_le_compat_l; [exact H | discriminate]. Qed.

Lemma pow2_lt_inv (a b : Z) : (pow2 a < pow2 b)%Q -> a < b.
Proof.
  intros H. destruct (Z_lt_le_dec a b) as [L|L]; [exact L|].
  pose proof (pow2_le b a L). lra.
Qed.

Lemma pow2_inv (e : Z) : pow2 e * pow2 (- e) == 1.
Proof. rewrite <- pow2_add. replace (e + - e) with 0 by lia. reflexivity. Qed.

Lemma pow2_Z (j : Z) : 0 <= j -> inject_Z (2 ^ j) == pow2 j.
Proof. intros H. apply (Zpower_Qpower 2 j H). Qed.

Lemma log2_Q (n : positive) :
  (pow2 (Z.log2 (Z.pos n)) <= inject_Z (Z.pos n))%Q
  /\ (inject_Z (Z.pos n) < pow2 (Z.log2 (Z.pos n) + 1))%Q.
Proof.
  pose proof (Z.log2_spec (Z.pos n) eq_refl) as [L U].
  pose proof (Z.log2_nonneg (Z.pos n)) as N.
  rewrite <- !pow2_Z by lia. split.
  - rewrite <- Zle_Qle. exact L.
  - rewrite <- Zlt_Qlt. exact U.
Qed.

Lemma Qmake_mul (n d : positive) : (Z.pos n # d) * inject_Z (Z.pos d) == inject_Z (Z.pos n).
Proof. unfold Qeq, Qmult, inject_Z. cbn. lia. Qed.

Lemma ilog2_spec (n d : positive) :
  (pow2 (ilog2 n d) <= Z.pos n # d)%Q /\ (Z.pos n # d < pow2 (ilog2 n d + 1))%Q.
Proof.
  unfold ilog2.
  destruct (log2_Q n) as [Ln Un]. destruct (log2_Q d) as [Ld Ud].
  set (ln := Z.log2 (Z.pos n)) in *. set (ld := Z.log2 (Z.pos d)) in *.
  pose proof (Qmake_mul n d) as X.
  set (x := Z.pos n # d) in *.
  set (nq := inject_Z (Z.pos n)) in *. set (dq := inject_Z (Z.pos d)) in *.
  assert (A : pow2 ln == pow2 (ln - ld) * pow2 ld)
    by (rewrite <- pow2_add; replace (ln - ld + ld) with ln by lia; reflexivity).
  pose proof (pow2_add (ln - ld - 1) 1) as B1.
  replace (ln - ld - 1 + 1) with (ln - ld) in B1 by lia.
  pose proof (pow2_add (ln - ld) 1) as B2.
  pose proof (pow2_add ln 1) as B3. pose proof (pow2_add ld 1) as B4.
  change (pow2 1) with 2%Q in *.
  pose proof (pow2_pos (ln - ld)) as P0. pose proof (pow2_pos ld) as P1.
  pose proof (pow2_pos (ln - ld - 1)) as P2.
  assert (Dpos : (0 < dq)%Q) by reflexivity.
  assert (Xpos : (0 < x)%Q) by reflexivity.
  destruct (Qle_bool (pow2 (ln - ld)) x) eqn:T.
  - apply Qle_bool_iff in T. split; [exact T|].
    rewrite B2. apply Qnot_le_lt. intros C.
    assert ((pow2 (ln - ld) * 2) * pow2 ld <= x * dq)%Q.
    { apply Qmult_le_compat_nonneg; split; lra. }
    nra.
  - assert (T' : (x < pow2 (ln - ld))%Q).
    { apply Qnot_le_lt. intros C. apply Qle_bool_iff in C. congruence. }
    replace (ln - ld - 1 + 1) with (ln - ld) by lia. split; [|exact T'].
    apply Qnot_lt_le. intros C.
    assert ((x * dq <= pow2 (ln - ld - 1) * (pow2 ld * 2))%Q).
    { apply Qmult_le_compat_nonneg; split; lra. }
    nra.
Qed.

Lemma rte_floor (x : Q) :
  Qfloor x <= roundTiesToEven x <= Qfloor x + 1.
Proof.
  unfold roundTiesToEven.
  destruct (x - inject_Z (Qfloor x) ?= 1 # 2)%Q; [destruct (Z.even (Qfloor x))| |]; lia.
Qed.

Lemma rte_ge_int (N : Z) (x : Q) : (inject_Z N <= x)%Q -> N <= roundTiesToEven x.
Proof.
  intros H. apply Qfloor_resp_le in H. rewrite Qfloor_Z in H.
  pose proof (rte_floor x). lia.
Qed.

Lemma rte_le_int (N : Z) (x : Q) : (x <= inject_Z N)%Q -> roundTiesToEven x <= N.
Proof.
  intros H. pose proof (Qfloor_resp_le _ _ H) as F. rewrite Qfloor_Z in F.
  pose proof (rte_floor x) as R.
  destruct (Z.eq_dec (Qfloor x) N) as [E|E]; [|lia].
  unfold roundTiesToEven. rewrite E.
  destruct (Qcompare_spec (x - inject_Z N) (1 # 2)) as [C|C|C]; try lia; lra.
Qed.

Lemma rte_mono (x y : Q) : (x <= y)%Q -> roundTiesToEven x <= roundTiesToEven y.
Proof.
  intros H. pose proof (Qfloor_resp_le _ _ H) as F.
  pose proof (rte_floor x) as Rx. pose proof (rte_floor y) as Ry.
  destruct (Z.eq_dec (Qfloor x) (Qfloor y)) as [E|E]; [|lia].
  unfold roundTiesToEven in *. rewrite <- E in *.
  destruct (Qcompare_spec (x - inject_Z (Qfloor x)) (1 # 2)) as [Cx|Cx|Cx];
    destruct (Qcompare_spec (y - inject_Z (Qfloor x)) (1 # 2)) as [Cy|Cy|Cy];
    try lia; try lra; destruct (Z.even (Qfloor x)); lia.
Qed.

Lemma round53_spec (n d : positive) :
  exists m e,
    round53 n d = (inject_Z m * pow2 e)%Q
    /\ e = ilog2 n d - 52
    /\ m = roundTiesToEven ((Z.pos n # d) * pow2 (- e))
    /\ 2 ^ 52 <= m <= 2 ^ 53.
Proof.
  eexists _, _. split; [reflexivity|]. split; [reflexivity|]. split; [reflexivity|].
  destruct (ilog2_spec n d) as [L U].
  set (e := ilog2 n d - 52). set (x := Z.pos n # d) in *.
  pose proof (pow2_inv e) as I. pose proof (pow2_pos e) as Pe. pose proof (pow2_pos (- e)) as Pn.
  assert (L' : (pow2 52 * pow2 e <= x)%Q).
  { rewrite <- pow2_add. replace (52 + e) with (ilog2 n d) by (unfold e; lia). exact L. }
  assert (U' : (x < pow2 53 * pow2 e)%Q).
  { rewrite <- pow2_add. replace (53 + e) with (ilog2 n d + 1) by (unfold e; lia). exact U. }
  split.
  - apply rte_ge_int. rewrite (pow2_Z 52) by lia.
    apply Qle_trans with ((pow2 52 * pow2 e) * pow2 (- e))%Q;
      [rewrite <- Qmult_assoc, I, Qmult_1_r; apply Qle_refl | apply Qmult_le_compat_r; lra].
  - apply rte_le_int. rewrite (pow2_Z 53) by lia.
    apply Qle_trans with ((pow2 53 * pow2 e) * pow2 (- e))%Q;
      [apply Qmult_le_compat_r; lra | rewrite <- Qmult_assoc, I, Qmult_1_r; apply Qle_refl].
Qed.

Lemma round53_pos (n d : positive) : (0 < round53 n d)%Q.
Proof.
  destruct (round53_spec n d) as (m & e & -> & _ & _ & M).
  apply Qmult_lt_0_compat; [|apply pow2_pos].
  change 0%Q with (inject_Z 0). rewrite <- Zlt_Qlt. lia.
Qed.

Lemma round53_mono (n d n' d' : positive) :
  (Z.pos n # d <= Z.pos n' # d')%Q -> (round53 n d <= round53 n' d')%Q.
Proof.
  intros H.
  destruct (round53_spec n d) as (m & e & -> & Ee & Em & M).
  destruct (round53_spec n' d') as (m' & e' & -> & Ee' & Em' & M').
  destruct (ilog2_spec n d) as [L U]. destruct (ilog2_spec n' d') as [L' U'].
  assert (K : ilog2 n d < ilog2 n' d' + 1) by (apply pow2_lt_inv; lra).
  pose proof (pow2_pos e) as Pe. pose proof (pow2_pos e') as Pe'.
  destruct (Z.eq_dec (ilog2 n d) (ilog2 n' d')) as [E|E].
  - assert (E2 : e' = e) by lia. rewrite E2 in *.
    apply Qmult_le_compat_r; [|lra].
    rewrite <- Zle_Qle. rewrite Em, Em'. apply rte_mono.
    apply Qmult_le_compat_r; [exact H|]. pose proof (pow2_pos (- e)). lra.
  - assert (e + 1 <= e') by lia.
    apply Qle_trans with (pow2 53 * pow2 e)%Q.
    + apply Qmult_le_compat_r; [|lra]. rewrite <- (pow2_Z 53) by lia.
      rewrite <- Zle_Qle. lia.
    + apply Qle_trans with (pow2 52 * pow2 e')%Q.
      * rewrite <- !pow2_add. apply pow2_le. lia.
      * apply Qmult_le_compat_r; [|lra]. rewrite <- (pow2_Z 52) by lia.
        rewrite <- Zle_Qle. lia.
Qed.

Lemma fl_mono (x y : Q) : (x <= y)%Q -> (fl x <= fl y)%Q.
Proof.
  destruct x as [[|n|n] d], y as [[|n'|n'] d']; unfold fl; cbn [Qnum Qden]; intros H.
  - lra.
  - pose proof (round53_pos n' d'). lra.
  - exfalso. unfold Qle in H. cbn in H. lia.
  - exfalso. unfold Qle in H. cbn in H. lia.
  - now apply round53_mono.
  - exfalso. unfold Qle in H. cbn in H. lia.
  - pose proof (round53_pos n d). lra.
  - pose proof (round53_pos n d). pose proof (round53_pos n' d'). lra.
  - assert (H' : (Z.pos n' # d' <= Z.pos n # d)%Q) by (unfold Qle in *; cbn in *; lia).
    pose proof (round53_mono _ _ _ _ H'). lra.
Qed.

Lemma fl_compat (x y : Q) : x == y -> fl x == fl y.
Proof. intros E. apply Qle_antisym; apply fl_mono; rewrite E; apply Qle_refl. Qed.

Lemma Math_round_mono (x y : Q) : (x <= y)%Q -> Math_round x <= Math_round y.
Proof. intros H. unfold Math_round. apply Qfloor_resp_le. lra. Qed.

Lemma fmul_mono (x y c : Q) : (0 <= c)%Q -> (x <= y)%Q -> (fmul x c <= fmul y c)%Q.
Proof. intros Hc H. apply fl_mono. apply Qmult_le_compat_r; assumption. Qed.

Lemma quotient_ge_1 (x g : Z) : 0 < g -> g <= x -> (1 <= inject_Z x / inject_Z g)%Q.
Proof.
  intros Hg H. apply Qle_shift_div_l.
  - change 0%Q with (inject_Z 0). rewrite <- Zlt_Qlt. exact Hg.
  - rewrite Qmult_1_l. rewrite <- Zle_Qle. exact H.
Qed.

Lemma quotient_le (x g a b : Z) :
  0 < g -> 0 < b -> x * b <= a * g -> (inject_Z x / inject_Z g <= inject_Z a / inject_Z b)%Q.
Proof.
  intros Hg Hb H.
  assert (G : (0 < inject_Z g)%Q) by (change 0%Q with (inject_Z 0); rewrite <- Zlt_Qlt; exact Hg).
  assert (B : (0 < inject_Z b)%Q) by (change 0%Q with (inject_Z 0); rewrite <- Zlt_Qlt; exact Hb).
  apply Qle_shift_div_r; [exact G|].
  unfold Qdiv. rewrite <- Qmult_assoc, (Qmult_comm (/ inject_Z b)), Qmult_assoc.
  apply Qle_shift_div_l; [exact B|].
  rewrite <- !inject_Z_mult, <- Zle_Qle. exact H.
Qed.

Lemma below_goal_progress (x g : Z) :
  0 < g <= 2 ^ 53 -> x < g ->
  (fmul (fdiv (inject_Z x) (inject_Z g)) 100 <= 100 - pow2 (-46))%Q.
Proof.
  intros Hg H.
  assert (Q1 : (inject_Z x / inject_Z g <= inject_Z (2 ^ 53 - 1) / inject_Z (2 ^ 53))%Q).
  { apply quotient_le; [lia | lia |]. nia. }
  apply Qle_trans with (fmul (fdiv (inject_Z (2 ^ 53 - 1)) (inject_Z (2 ^ 53))) 100).
  - apply fmul_mono; [discriminate|]. apply fl_mono. exact Q1.
  - vm_compute. discriminate.
Qed.

Lemma goal_reached_double (x g : Z) :
  0 < g <= 2 ^ 53 ->
  Qle_bool 100 (fmul (fdiv (inject_Z x) (inject_Z g)) 100) = (g <=? x).
Proof.
  intros Hg. destruct (Z.leb_spec g x) as [H|H].
  - apply Qle_bool_iff.
    apply Qle_trans with (fmul (fdiv 1 1) 100); [vm_compute; discriminate|].
    apply fmul_mono; [discriminate|]. apply fl_mono.
    apply Qle_trans with 1%Q; [vm_compute; discriminate|].
    apply quotient_ge_1; lia.
  - destruct (Qle_bool 100 _) eqn:E; [|reflexivity].
    apply Qle_bool_iff in E. pose proof (below_goal_progress x g Hg H) as B.
    pose proof (pow2_pos (-46)). lra.
Qed.

(** The double nearest to one tenth, 0x3FB999999999999A. *)
Example fl_tenth : fl (1 # 10) == 3602879701896397 # 36028797018963968.
Proof. vm_compute. reflexivity. Qed.

(** 290 / 2000 * 100 in doubles is 14.499999999999998, not 14.5. *)
Example progress_290 :
  fmul (fdiv 290 2000) 100 == 8162774324609023 # 562949953421312
  /\ (fmul (fdiv 290 2000) 100 < 29 # 2)%Q
  /\ Math_round (fmul (fdiv 290 2000) 100) = 14
  /\ Math_round (290 / 2000 * 100) = 15.
Proof. repeat split; vm_compute; reflexivity. Qed.

(** [fdiv] and [fmul] agree with the standard library's IEEE 754 operations
    on these progress computations. *)
Example progress_agrees_SpecFloat :
  Forall (fun '(total, goal) =>
            fmul (fdiv (inject_Z total) (inject_Z goal)) 100 == SFprogress total goal)
    [(290, 2000); (606, 2450); (1995, 2000); (1, 3); (2449, 2450); (7, 2600);
     (1234567, 7654321); (199, 200); (9007199254740991, 9007199254740992)].
Proof. repeat constructor; vm_compute; reflexivity. Qed.

(** ** Time values *)

Lemma TimeFromParts (d h m s ms : Z) :
  0 <= h < 24 -> 0 <= m < 60 -> 0 <= s < 60 -> 0 <= ms < 1000 ->
  let t := MakeDate d (MakeTime h m s ms) in
  Day t = d /\ HourFromTime t = h /\ MinFromTime t = m /\
  SecFromTime t = s /\ msFromTime t = ms.
Proof.
  intros Hh Hm Hs Hms t. subst t.
  unfold MakeDate, MakeTime, Day, HourFromTime, MinFromTime, SecFromTime, msFromTime,
    msPerDay, msPerHour, msPerMinute, msPerSecond.
  set (t := d * 86400000 + (h * 3600000 + m * 60000 + s * 1000 + ms)).
  assert (E1 : t / 86400000 = d).
  { symmetry. apply Z.div_unique with (r := h * 3600000 + m * 60000 + s * 1000 + ms);
      subst t; lia. }
  assert (E2 : t / 3600000 = d * 24 + h).
  { symmetry. apply Z.div_unique with (r := m * 60000 + s * 1000 + ms); subst t; lia. }
  assert (E3 : t / 60000 = (d * 24 + h) * 60 + m).
  { symmetry. apply Z.div_unique with (r := s * 1000 + ms); subst t; lia. }
  assert (E4 : t / 1000 = ((d * 24 + h) * 60 + m) * 60 + s).
  { symmetry. apply Z.div_unique with (r := ms); subst t; lia. }
  rewrite E1, E2, E3, E4.
  repeat split.
  - symmetry. apply Z.mod_unique with (q := d); lia.
  - symmetry. apply Z.mod_unique with (q := d * 24 + h); lia.
  - symmetry. apply Z.mod_unique with (q := (d * 24 + h) * 60 + m); lia.
  - symmetry. apply Z.mod_unique with (q := ((d * 24 + h) * 60 + m) * 60 + s); subst t; lia.
Qed.

Lemma LocalTime_UTC (tza t : Z) : LocalTime tza (UTC tza t) = t.
Proof. unfold LocalTime, UTC. lia. Qed.

Lemma SecFromTime_range (t : Z) : 0 <= SecFromTime t < 60.
Proof. unfold SecFromTime. apply Z.mod_pos_bound. lia. Qed.

Lemma MinFromTime_range (t : Z) : 0 <= MinFromTime t < 60.
Proof. unfold MinFromTime. apply Z.mod_pos_bound. lia. Qed.

Lemma msFromTime_range (t : Z) : 0 <= msFromTime t < 1000.
Proof. unfold msFromTime, msPerSecond. apply Z.mod_pos_bound. lia. Qed.

(** The hour argument that iteration [i] passes to [setHours]. *)
Lemma loop_hour (i : nat) :
  (i < 8)%nat ->
  9 + Math_floor (inject_Z (Z.of_nat i) * (12 / inject_Z (Z.of_nat tasksCount)))
  = nth i [9; 10; 12; 13; 15; 16; 18; 19] 0
  /\ 9 <= nth i [9; 10; 12; 13; 15; 16; 18; 19] 0 <= 19.
Proof.
  intros H.
  do 8 (destruct i as [|i]; [vm_compute; intuition congruence|]).
  lia.
Qed.

(** The local time of the task pushed by iteration [i]. *)
Lemma loopTask_local_time (w : World) (g : Z) (i : nat) :
  (i < 8)%nat -> (0 <= random w i)%Q -> (random w i < 1)%Q ->
  LocalTime (LocalTZA w) (time (loopTask w g i))
  = MakeDate (Day (LocalTime (LocalTZA w) (clock w)))
      (MakeTime (nth i [9; 10; 12; 13; 15; 16; 18; 19] 0)
         (ToIntegerOrInfinity (random w i * 59))
         (SecFromTime (LocalTime (LocalTZA w) (clock w)))
         (msFromTime (LocalTime (LocalTZA w) (clock w)))).
Proof.
  intros Hi H0 H1.
  unfold loopTask. cbn [time]. unfold setMinutes, setHours.
  rewrite !LocalTime_UTC, ToIntegerOrInfinity_inject_Z.
  destruct (loop_hour i Hi) as [-> Hh].
  set (t0 := LocalTime (LocalTZA w) (clock w)).
  destruct (TimeFromParts (Day t0) (nth i [9; 10; 12; 13; 15; 16; 18; 19] 0)
              (MinFromTime t0) (SecFromTime t0) (msFromTime t0))
    as (-> & -> & _ & -> & ->);
    auto using MinFromTime_range, SecFromTime_range, msFromTime_range.
  lia.
Qed.

(** ** Sorting by a key *)

Section SortByKey.
Context {A : Type}.
Variable key : A -> Z.

Lemma sort_insert_perm (x : A) (l : list A) :
  Permutation (x :: l) (sort_insert (compareBy key) x l).
Proof.
  induction l as [|y l IH]; cbn; [reflexivity|].
  destruct (compareBy key x y <=? 0); [reflexivity|].
  rewrite perm_swap. now constructor.
Qed.

Lemma Array_sort_perm (l : list A) : Permutation l (Array_sort (compareBy key) l).
Proof.
  induction l as [|x l IH]; cbn; [constructor|].
  rewrite <- sort_insert_perm. now constructor.
Qed.

Lemma sort_insert_sorted (x : A) (l : list A) :
  StronglySorted (ascendingBy key) l ->
  StronglySorted (ascendingBy key) (sort_insert (compareBy key) x l).
Proof.
  induction 1 as [|y l Hs IH Hy]; cbn.
  - repeat constructor.
  - destruct (Z.leb_spec (compareBy key x y) 0) as [Hxy|Hxy]; unfold compareBy in Hxy.
    + constructor; [now constructor|].
      constructor; [unfold ascendingBy; lia|].
      eapply Forall_impl; [|exact Hy]. unfold ascendingBy. intros; lia.
    + constructor; [exact IH|].
      eapply Permutation_Forall; [apply sort_insert_perm|].
      constructor; [unfold ascendingBy; lia | exact Hy].
Qed.

Lemma Array_sort_sorted (l : list A) :
  StronglySorted (ascendingBy key) (Array_sort (compareBy key) l).
Proof.
  induction l as [|x l IH]; cbn; [constructor | now apply sort_insert_sorted].
Qed.

(** Sorting leaves an ascending list as it is. *)
Lemma Array_sort_ascending (l : list A) :
  StronglySorted (ascendingBy key) l -> Array_sort (compareBy key) l = l.
Proof.
  induction 1 as [|x l Hs IH Hx]; [reflexivity|].
  unfold Array_sort in *. cbn [fold_right].
  rewrite IH. destruct l as [|y l]; cbn; [reflexivity|].
  inversion Hx as [|? ? Hxy _]; subst. unfold ascendingBy in Hxy.
  destruct (Z.leb_spec (compareBy key x y) 0) as [_|Hc];
    [reflexivity | unfold compareBy in Hc; lia].
Qed.
End SortByKey.

Lemma Array_sort_length {A : Type} (key : A -> Z) (l : list A) :
  List.length (Array_sort (fun a b => key a - key b) l) = List.length l.
Proof. symmetry. apply Permutation_length, Array_sort_perm. Qed.

Lemma sumAmounts_uniform (a : Z) (l : list WaterTask) :
  Forall (fun t => amount t = a) l -> sumAmounts l = Z.of_nat (List.length l) * a.
Proof.
  induction 1 as [|t l Ht _ IH]; [reflexivity|].
  cbn [sumAmounts fold_right List.length]. fold (sumAmounts l). rewrite IH, Ht. lia.
Qed.

(** ** The planner *)

Lemma roundedIntake_eq (t h : Z) (d : jsstring) :
  roundedIntake (mkWeatherData t h d)
  = 2000 + (if t >? 25 then (t - 25) * 50 else 0)
         + (if h >? 60 then (h - 60) * 20 else 0).
Proof.
  unfold roundedIntake. cbn [temp humidity].
  rewrite Math_round_inject_Z.
  destruct (t >? 25), (h >? 60); lia.
Qed.

Lemma roundedIntake_ge_2000 (wd : WeatherData) : 2000 <= roundedIntake wd.
Proof.
  destruct wd as [t h d]. rewrite roundedIntake_eq.
  destruct (Z.gtb_spec t 25), (Z.gtb_spec h 60); lia.
Qed.

(** C1.  For integer temperature [t] and humidity [h] the goal stored by
    [calculateHydrationNeeds] is 2000, plus [(t - 25) * 50] when [t > 25], plus
    [(h - 60) * 20] when [h > 60]; at (25, 60) it is 2000, at (35, 60) it is
    2500 and at (25, 80) it is 2400. *)
Theorem computeGoal_formula :
  (forall t h d,
      roundedIntake (mkWeatherData t h d)
      = 2000 + (if t >? 25 then (t - 25) * 50 else 0)
             + (if h >? 60 then (h - 60) * 20 else 0))
  /\ (forall d, roundedIntake (mkWeatherData 25 60 d) = 2000)
  /\ (forall d, roundedIntake (mkWeatherData 35 60 d) = 2500)
  /\ (forall d, roundedIntake (mkWeatherData 25 80 d) = 2400).
Proof.
  split; [exact roundedIntake_eq|].
  repeat split; intros d; rewrite roundedIntake_eq; reflexivity.
Qed.

Lemma loopTask_fields (w : World) (g : Z) (l : list nat) :
  Forall (fun t => completed t = false /\ amount t = amountPerTask g)
    (map (loopTask w g) l).
Proof.
  apply Forall_forall. intros t Ht.
  apply in_map_iff in Ht. destruct Ht as (i & <- & _). split; reflexivity.
Qed.

Lemma generateTasks_fields (w : World) (g : Z) :
  Forall (fun t => completed t = false /\ amount t = amountPerTask g) (generateTasks w g).
Proof.
  unfold generateTasks.
  eapply Permutation_Forall;
    [apply (Array_sort_perm (fun t => getTime (time t))) | apply loopTask_fields].
Qed.

Lemma generateTasks_length (w : World) (g : Z) : List.length (generateTasks w g) = 8%nat.
Proof.
  unfold generateTasks.
  rewrite (Array_sort_length (fun t => getTime (time t))), length_map, length_seq.
  reflexivity.
Qed.

(** C2.  Whatever the goal [g] and the random minutes, [generateTasks g]
    returns exactly 8 tasks, each not completed and of amount
    [round(g / 8)], in ascending order of scheduled time, and the 8 amounts sum
    to a value in [[g - 8, g + 8]]. *)
Theorem generateSchedule_batch (w : World) (g : Z) :
  List.length (generateTasks w g) = 8%nat
  /\ Forall (fun t => completed t = false /\ amount t = Math_round (inject_Z g / 8))
       (generateTasks w g)
  /\ StronglySorted (fun a b => getTime (time a) <= getTime (time b)) (generateTasks w g)
  /\ g - 8 <= sumAmounts (generateTasks w g) <= g + 8.
Proof.
  split; [apply generateTasks_length|].
  split; [exact (generateTasks_fields w g)|].
  split.
  - unfold generateTasks. apply (Array_sort_sorted (fun t => getTime (time t))).
  - rewrite (sumAmounts_uniform (amountPerTask g)).
    + rewrite generateTasks_length. pose proof (amountPerTask_bounds g). lia.
    + eapply Forall_impl; [|apply generateTasks_fields]. intros t [_ H]. exact H.
Qed.

(** The tasks are pushed in ascending order of time when every random number
    lies in [[0, 1)], so the final sort does not move them. *)
Lemma loopTasks_ascending (w : World) (g : Z) :
  (forall i, (0 <= random w i)%Q /\ (random w i < 1)%Q) ->
  StronglySorted (fun a b => getTime (time a) <= getTime (time b))
    (map (loopTask w g) (seq 0 tasksCount)).
Proof.
  intros Hr.
  assert (L : forall i, (i < 8)%nat ->
            getTime (time (loopTask w g i)) + LocalTZA w
            = MakeDate (Day (LocalTime (LocalTZA w) (clock w)))
                (MakeTime (nth i [9; 10; 12; 13; 15; 16; 18; 19] 0)
                   (ToIntegerOrInfinity (random w i * 59))
                   (SecFromTime (LocalTime (LocalTZA w) (clock w)))
                   (msFromTime (LocalTime (LocalTZA w) (clock w))))).
  { intros i Hi. destruct (Hr i) as [H0 H1].
    exact (loopTask_local_time w g i Hi H0 H1). }
  assert (M : forall i, 0 <= ToIntegerOrInfinity (random w i * 59) <= 58).
  { intros i. destruct (Hr i). now apply random_minute_range. }
  pose proof (L 0%nat ltac:(lia)) as L0. pose proof (L 1%nat ltac:(lia)) as L1.
  pose proof (L 2%nat ltac:(lia)) as L2. pose proof (L 3%nat ltac:(lia)) as L3.
  pose proof (L 4%nat ltac:(lia)) as L4. pose proof (L 5%nat ltac:(lia)) as L5.
  pose proof (L 6%nat ltac:(lia)) as L6. pose proof (L 7%nat ltac:(lia)) as L7.
  pose proof (M 0%nat) as M0. pose proof (M 1%nat) as M1. pose proof (M 2%nat) as M2.
  pose proof (M 3%nat) as M3. pose proof (M 4%nat) as M4. pose proof (M 5%nat) as M5.
  pose proof (M 6%nat) as M6. pose proof (M 7%nat) as M7.
  unfold MakeDate, MakeTime, msPerDay, msPerHour, msPerMinute, msPerSecond in *.
  cbn [nth] in *.
  unfold tasksCount. cbn [seq map].
  repeat (constructor; [|repeat (constructor; [lia|]); constructor]).
  constructor.
Qed.

(** C7.  With every random number in [[0, 1)], whatever the goal, the task at
    index [i] of the generated batch is the one pushed by iteration [i]; its
    hour is [9 + floor(1.5 * i)], that is 9, 10, 12, 13, 15, 16, 18, 19 along
    the batch, and its minute is the integer part of the [i]-th random number
    times 59. *)
Theorem schedule_hours (w : World) (g : Z) :
  (forall i, (0 <= random w i)%Q /\ (random w i < 1)%Q) ->
  generateTasks w g = map (loopTask w g) (seq 0 8)
  /\ map (fun t => getHours (LocalTZA w) (time t)) (generateTasks w g)
     = [9; 10; 12; 13; 15; 16; 18; 19]
  /\ forall i, (i < 8)%nat ->
       exists t, nth_error (generateTasks w g) i = Some t
         /\ id t = lit "task-" ++ Number_toString i
         /\ getHours (LocalTZA w) (time t) = 9 + Math_floor (inject_Z (Z.of_nat i) * (3 # 2))
         /\ getMinutes (LocalTZA w) (time t) = Math_floor (random w i * 59).
Proof.
  intros Hr.
  assert (E : generateTasks w g = map (loopTask w g) (seq 0 8)).
  { unfold generateTasks.
    apply (Array_sort_ascending (fun t => getTime (time t))).
    now apply loopTasks_ascending. }
  assert (P : forall i, (i < 8)%nat ->
            getHours (LocalTZA w) (time (loopTask w g i))
            = nth i [9; 10; 12; 13; 15; 16; 18; 19] 0
            /\ getMinutes (LocalTZA w) (time (loopTask w g i))
               = ToIntegerOrInfinity (random w i * 59)).
  { intros i Hi. destruct (Hr i) as [H0 H1]. unfold getHours, getMinutes.
    rewrite (loopTask_local_time w g i Hi H0 H1).
    destruct (loop_hour i Hi) as [_ Hh].
    pose proof (random_minute_range _ H0 H1) as Hm.
    set (t0 := LocalTime (LocalTZA w) (clock w)).
    destruct (TimeFromParts (Day t0) (nth i [9; 10; 12; 13; 15; 16; 18; 19] 0)
                (ToIntegerOrInfinity (random w i * 59)) (SecFromTime t0) (msFromTime t0))
      as (_ & -> & -> & _);
      auto using SecFromTime_range, msFromTime_range; lia. }
  split; [exact E|]. split.
  - rewrite E. cbn [seq map].
    repeat match goal with
           | |- context [getHours _ (time (loopTask w g ?i))] =>
               rewrite (proj1 (P i ltac:(lia)))
           end.
    reflexivity.
  - intros i Hi. exists (loopTask w g i). rewrite E.
    split; [|split; [reflexivity|]].
    + rewrite nth_error_map, nth_error_seq.
      destruct (Nat.ltb_spec i 8) as [_|?]; [reflexivity | lia].
    + destruct (P i Hi) as [Ph Pm]. rewrite Ph, Pm. split.
      * do 8 (destruct i as [|i]; [reflexivity|]). lia.
      * destruct (Hr i) as [H0 _]. apply ToIntegerOrInfinity_floor.
        apply Qmult_le_0_compat; [exact H0 | discriminate].
Qed.

Lemma schedule_hours_witness :
  let w := mkWorld 1700000000123 3600000 (fun _ => 1 # 2) in
  map (fun t => getHours (LocalTZA w) (time t)) (generateTasks w 2450)
  = [9; 10; 12; 13; 15; 16; 18; 19].
Proof.
  intros w.
  refine (proj1 (proj2 (schedule_hours w 2450 _))).
  intros i. split; [discriminate | reflexivity].
Defined.

(** ** The classifier *)

Lemma takeWhile_dropWhile (p : N -> bool) (s : jsstring) :
  s = takeWhile p s ++ dropWhile p s.
Proof.
  induction s as [|c s IH]; cbn; [reflexivity|].
  destruct (p c); cbn; [now rewrite <- IH | reflexivity].
Qed.

Lemma takeWhile_all (p : N -> bool) (s : jsstring) : forallb p (takeWhile p s) = true.
Proof.
  induction s as [|c s IH]; cbn; [reflexivity|].
  destruct (p c) eqn:E; cbn; [now rewrite E | reflexivity].
Qed.

Lemma takeWhile_id (p : N -> bool) (s : jsstring) : forallb p s = true -> takeWhile p s = s.
Proof.
  induction s as [|c s IH]; cbn; [reflexivity|].
  intros H. apply andb_true_iff in H. destruct H as [-> H]. now rewrite IH.
Qed.

Lemma dropWhile_head (p : N -> bool) (s : jsstring) :
  match dropWhile p s with c :: _ => p c = false | [] => True end.
Proof.
  induction s as [|c s IH]; cbn; [exact I|].
  destruct (p c) eqn:E; [exact IH | exact E].
Qed.

Lemma dropWhile_nil (p : N -> bool) (s : jsstring) :
  dropWhile p s = [] -> forallb p s = true.
Proof.
  induction s as [|c s IH]; cbn; [reflexivity|].
  destruct (p c); [exact IH | discriminate].
Qed.

(** [s.match(/\d+/)] finds the first digit run whenever the line has one. *)
Lemma firstDigitRun_None (s : jsstring) :
  firstDigitRun s = None -> forallb (fun c => negb (isDigit c)) s = true.
Proof.
  unfold firstDigitRun.
  destruct (dropWhile (fun c => negb (isDigit c)) s) eqn:E; [|discriminate].
  intros _. now apply dropWhile_nil.
Qed.

Lemma firstDigitRun_Some (s run : jsstring) :
  firstDigitRun s = Some run -> FirstDigitRun s run.
Proof.
  unfold firstDigitRun.
  pose proof (takeWhile_dropWhile (fun c => negb (isDigit c)) s) as Hs.
  pose proof (dropWhile_head (fun c => negb (isDigit c)) s) as Hh.
  destruct (dropWhile (fun c => negb (isDigit c)) s) as [|c r] eqn:E; [discriminate|].
  intros [= <-].
  apply negb_false_iff in Hh.
  exists (takeWhile (fun c => negb (isDigit c)) s), (dropWhile isDigit (c :: r)).
  split; [|split; [|split; [|split]]].
  - rewrite Hs at 1. f_equal. exact (takeWhile_dropWhile isDigit (c :: r)).
  - apply takeWhile_all.
  - cbn. rewrite Hh. discriminate.
  - exact (takeWhile_all isDigit (c :: r)).
  - exact (dropWhile_head isDigit (c :: r)).
Qed.

Lemma startsWith_app (p s : jsstring) :
  startsWith p s = true <-> exists post, s = p ++ post.
Proof.
  unfold startsWith. destruct (jsstring_eq_dec (firstn (List.length p) s) p) as [E|E].
  - split; [intros _|reflexivity].
    exists (skipn (List.length p) s). rewrite <- E at 1. symmetry. apply firstn_skipn.
  - split; [discriminate|]. intros [post ->]. exfalso. apply E.
    rewrite firstn_app, Nat.sub_diag, firstn_all. cbn. apply app_nil_r.
Qed.

Lemma matchUnit_spec (s : jsstring) :
  matchUnit s = true <-> exists u post, s = u ++ post /\ isUnit u.
Proof.
  unfold matchUnit, isUnit. rewrite !orb_true_iff, !startsWith_app. split.
  - intros [[[post ->]|[post ->]]|[post ->]]; eauto 6.
  - intros (u & post & -> & [->|[->| ->]]); eauto.
Qed.

Lemma isUnit_head (u post : jsstring) :
  isUnit u -> exists c r, u ++ post = c :: r /\ isWhiteSpace c = false /\ isDigit c = false.
Proof.
  intros [->|[->| ->]]; cbn; eexists _, _; repeat split; reflexivity.
Qed.

Lemma matchSpacesUnit_spec (s : jsstring) :
  matchSpacesUnit s = true <->
  exists ws u post, s = ws ++ u ++ post /\ forallb isWhiteSpace ws = true /\ isUnit u.
Proof.
  split.
  - induction s as [|c s IH].
    + cbn [matchSpacesUnit]. rewrite orb_false_r. intros H.
      apply matchUnit_spec in H. destruct H as (u & post & E & Hu).
      exists [], u, post. auto.
    + cbn [matchSpacesUnit]. intros H. apply orb_true_iff in H. destruct H as [H|H].
      * apply matchUnit_spec in H. destruct H as (u & post & E & Hu).
        exists [], u, post. auto.
      * apply andb_true_iff in H. destruct H as [Hc H].
        destruct (IH H) as (ws & u & post & -> & Hws & Hu).
        exists (c :: ws), u, post. cbn. rewrite Hc, Hws. auto.
  - intros (ws & u & post & -> & Hws & Hu).
    induction ws as [|c ws IH].
    + cbn [app]. assert (M : matchUnit (u ++ post) = true)
        by (apply matchUnit_spec; eauto).
      destruct (u ++ post); cbn [matchSpacesUnit]; now rewrite M.
    + cbn in Hws. apply andb_true_iff in Hws. destruct Hws as [Hc Hws].
      cbn [app matchSpacesUnit]. rewrite Hc, (IH Hws). apply orb_true_r.
Qed.

Lemma matchVolumeHere_spec (s : jsstring) :
  matchVolumeHere s = true <->
  exists ds rest, s = ds ++ rest /\ ds <> [] /\ forallb isDigit ds = true
                  /\ matchSpacesUnit rest = true.
Proof.
  split.
  - induction s as [|c s IH]; cbn [matchVolumeHere]; [discriminate|].
    intros H. apply andb_true_iff in H. destruct H as [Hc H].
    apply orb_true_iff in H. destruct H as [H|H].
    + destruct (IH H) as (ds & rest & -> & _ & Hds & Hr).
      exists (c :: ds), rest. cbn. rewrite Hc, Hds. repeat split; auto. discriminate.
    + exists [c], s. cbn. rewrite Hc. repeat split; auto. discriminate.
  - intros (ds & rest & -> & Hne & Hds & Hr).
    induction ds as [|c ds IH]; [contradiction|].
    cbn in Hds. apply andb_true_iff in Hds. destruct Hds as [Hc Hds].
    cbn [app matchVolumeHere]. rewrite Hc. cbn [andb].
    destruct ds as [|c' ds].
    + cbn [app]. rewrite Hr. apply orb_true_r.
    + rewrite IH; [reflexivity | discriminate | exact Hds].
Qed.

(** The matcher [matchVolume] accepts exactly the lines in which the
    expression [/\d+\s*(ml|ML|mL)/] has a match. *)
Lemma matchVolume_spec (s : jsstring) : matchVolume s = true <-> VolumePattern s.
Proof.
  unfold VolumePattern. split.
  - induction s as [|c s IH].
    + cbn. discriminate.
    + cbn [matchVolume]. intros H. apply orb_true_iff in H. destruct H as [H|H].
      * apply matchVolumeHere_spec in H. destruct H as (ds & rest & E & Hne & Hds & Hr).
        apply matchSpacesUnit_spec in Hr. destruct Hr as (ws & u & post & -> & Hws & Hu).
        exists [], ds, ws, u, post. auto.
      * destruct (IH H) as (pre & ds & ws & u & post & -> & Hne & Hds & Hws & Hu).
        exists (c :: pre), ds, ws, u, post. auto.
  - intros (pre & ds & ws & u & post & -> & Hne & Hds & Hws & Hu).
    assert (M : matchVolumeHere (ds ++ ws ++ u ++ post) = true).
    { apply matchVolumeHere_spec. exists ds, (ws ++ u ++ post). repeat split; auto.
      apply matchSpacesUnit_spec. eauto 6. }
    induction pre as [|c pre IH].
    + cbn [app]. destruct (ds ++ ws ++ u ++ post); cbn [matchVolume]; now rewrite M.
    + cbn [app matchVolume]. rewrite IH. apply orb_true_r.
Qed.

Lemma VolumePattern_has_digit (s : jsstring) :
  VolumePattern s -> existsb isDigit s = true.
Proof.
  intros (pre & ds & ws & u & post & -> & Hne & Hds & _).
  rewrite existsb_app. destruct ds as [|c ds]; [contradiction|].
  cbn in Hds. apply andb_true_iff in Hds. destruct Hds as [Hc _].
  cbn. rewrite Hc. apply orb_true_r.
Qed.

Lemma has_digit_firstDigitRun (s : jsstring) :
  existsb isDigit s = true -> exists run, firstDigitRun s = Some run.
Proof.
  intros H. destruct (firstDigitRun s) as [run|] eqn:E; [eauto|].
  apply firstDigitRun_None in E. exfalso.
  apply existsb_exists in H. destruct H as (c & Hin & Hc).
  rewrite forallb_forall in E. specialize (E c Hin). rewrite Hc in E. discriminate.
Qed.

(** When the volume expression matches, the amount is read off the first
    digit run; the default is not used, whatever it is. *)
Lemma volume_amount (s : jsstring) :
  matchVolume s = true ->
  exists run,
    firstDigitRun s = Some run /\ FirstDigitRun s run
    /\ (forall d, orDefault (firstDigitRun s) d = run)
    /\ loggedAmount s = parseInt run.
Proof.
  intros H. apply matchVolume_spec, VolumePattern_has_digit, has_digit_firstDigitRun in H.
  destruct H as [run E]. exists run.
  pose proof (firstDigitRun_Some s run E) as F.
  assert (D : forall d, orDefault (firstDigitRun s) d = run).
  { intros d. rewrite E. destruct F as (pre & post & _ & _ & Hne & _).
    destruct run; [contradiction | reflexivity]. }
  repeat split; auto. unfold loggedAmount. now rewrite D.
Qed.

Lemma isDigit_range (c : N) : isDigit c = true <-> (48 <= c <= 57)%N.
Proof. unfold isDigit. rewrite andb_true_iff, !N.leb_le. reflexivity. Qed.

Lemma digit_not_letter_or_blank (c : N) :
  isDigit c = true -> isAsciiLetter c || isWhiteSpace c = false.
Proof.
  rewrite isDigit_range. intros H. unfold isAsciiLetter, isWhiteSpace.
  repeat match goal with
         | |- context [(?a <=? ?b)%N] => destruct (N.leb_spec a b); try lia
         | |- context [(?a =? ?b)%N] => destruct (N.eqb_spec a b); try lia
         end.
Qed.

Lemma digit_not_location (s : jsstring) :
  existsb isDigit s = true -> matchLocation s = false.
Proof.
  intros H. unfold matchLocation.
  apply existsb_exists in H. destruct H as (c & Hin & Hc).
  destruct (forallb (fun c => isAsciiLetter c || isWhiteSpace c) s) eqn:E;
    [|apply andb_false_r].
  rewrite forallb_forall in E. specialize (E c Hin).
  rewrite (digit_not_letter_or_blank c Hc) in E. discriminate.
Qed.

(** C3, as amended.  A line in which some digits are followed, after blanks
    only, by one of the spellings ml, ML, mL of the unit is not a location and
    is classified as a volume log whose amount is the first digit run of the
    line read as a decimal number; so "250ml" and "drink 250 ml now" log 250.
    The amount expression yields 0 only for a line without any digit. *)
Theorem classify_volume :
  (forall s, VolumePattern s ->
     matchLocation s = false
     /\ exists run, FirstDigitRun s run /\ classify s = VolumeLog (parseInt run))
  /\ (forall s, firstDigitRun s = None -> loggedAmount s = 0)
  /\ classify (lit "250ml") = VolumeLog 250
  /\ classify (lit "drink 250 ml now") = VolumeLog 250.
Proof.
  split; [|split; [|split; reflexivity]].
  - intros s H.
    pose proof (digit_not_location s (VolumePattern_has_digit s H)) as L.
    apply matchVolume_spec in H.
    destruct (volume_amount s H) as (run & _ & F & _ & A).
    split; [exact L|]. exists run. split; [exact F|].
    unfold classify. now rewrite L, H, A.
  - intros s E. unfold loggedAmount. rewrite E. reflexivity.
Qed.

Lemma classify_volume_witness :
  (exists run,
      FirstDigitRun (lit "drink 250 ml now") run
      /\ classify (lit "drink 250 ml now") = VolumeLog (parseInt run))
  /\ loggedAmount (lit "no number") = 0.
Proof.
  split.
  - refine (proj2 (proj1 classify_volume (lit "drink 250 ml now") _)).
    exists (lit "drink "), (lit "250"), (lit " "), (lit "ml"), (lit " now").
    repeat split; try reflexivity; [discriminate | left; reflexivity].
  - apply (proj1 (proj2 classify_volume) (lit "no number")). reflexivity.
Defined.

(** C3 as stated fails.  In "250 cups ml" a digit run is followed later by
    the unit, and in "250Ml" it is followed at once by the unit in another
    case; both lines are trimmed, not empty and not locations, yet neither is
    classified as a volume log. *)
Lemma classify_volume_anywhere_counterexample :
  (trim (lit "250 cups ml") = lit "250 cups ml"
   /\ truthy (lit "250 cups ml") = true
   /\ matchLocation (lit "250 cups ml") = false
   /\ digitsThenUnitAnywhere (lit "250 cups ml") = true
   /\ classify (lit "250 cups ml") = Unrecognized)
  /\ (trim (lit "250Ml") = lit "250Ml"
      /\ truthy (lit "250Ml") = true
      /\ matchLocation (lit "250Ml") = false
      /\ digitsThenUnitAnywhere (lit "250Ml") = true
      /\ classify (lit "250Ml") = Unrecognized).
Proof. repeat split; reflexivity. Qed.

(** ** Task completion *)

Lemma Array_map_st_completion (taskId : jsstring) (batch : list WaterTask) (st : State) :
  Array_map_st (completionCallback taskId) batch st
  = (markCompleted taskId batch,
     mkState (messages st) (input st) (isLoading st) (weather st)
       (waterIntake st + Zsum (pendingAmounts taskId batch))
       (dailyGoal st) (waterTasks st) (currentLocation st)
       (toasts st ++ map ToastTaskDone (pendingAmounts taskId batch)) (awaiting st)).
Proof.
  revert st. induction batch as [|t batch IH]; intros st.
  - cbn. rewrite Z.add_0_r, app_nil_r. destruct st; reflexivity.
  - cbn [Array_map_st]. unfold completionCallback at 1.
    unfold markCompleted, pendingAmounts in *. cbn [map filter].
    destruct (str_eqb (id t) taskId); [destruct (completed t)|];
      cbn [negb andb]; rewrite IH; cbn [map Zsum fold_right]; fold (Zsum);
      unfold toast, setWaterIntake; cbn; rewrite <- ?app_assoc; cbn.
  all: try reflexivity.
  f_equal. f_equal. unfold Zsum. lia.
Qed.

Lemma handleTaskCompletion_eq (taskId : jsstring) (st : State) :
  handleTaskCompletion taskId st
  = mkState (messages st) (input st) (isLoading st) (weather st)
      (waterIntake st + snd (completeTask (waterTasks st) taskId))
      (dailyGoal st) (fst (completeTask (waterTasks st) taskId)) (currentLocation st)
      (toasts st ++ map ToastTaskDone (pendingAmounts taskId (waterTasks st))) (awaiting st).
Proof.
  unfold handleTaskCompletion. rewrite Array_map_st_completion. reflexivity.
Qed.

Lemma pendingAmounts_none (taskId : jsstring) (batch : list WaterTask) :
  (forall t, In t batch -> id t = taskId -> completed t = true) ->
  pendingAmounts taskId batch = [].
Proof.
  intros H. unfold pendingAmounts.
  induction batch as [|t batch IH]; [reflexivity|]. cbn [filter].
  unfold str_eqb at 1. destruct (jsstring_eq_dec (id t) taskId) as [E|E]; cbn [andb].
  - rewrite (H t (or_introl eq_refl) E). cbn. apply IH. intros; apply H; cbn; auto.
  - apply IH. intros; apply H; cbn; auto.
Qed.

Lemma markCompleted_done (taskId : jsstring) (batch : list WaterTask) :
  (forall t, In t batch -> id t = taskId -> completed t = true) ->
  markCompleted taskId batch = batch.
Proof.
  intros H. unfold markCompleted.
  induction batch as [|t batch IH]; [reflexivity|]. cbn [map].
  rewrite IH by (intros; apply H; cbn; auto). f_equal.
  unfold str_eqb. destruct (jsstring_eq_dec (id t) taskId) as [E|E]; [|reflexivity].
  pose proof (H t (or_introl eq_refl) E) as C. destruct t; cbn in *. now rewrite C.
Qed.

Lemma markCompleted_flags (taskId : jsstring) (batch : list WaterTask) :
  forall t, In t (markCompleted taskId batch) -> id t = taskId -> completed t = true.
Proof.
  intros t Ht E. unfold markCompleted in Ht. apply in_map_iff in Ht.
  destruct Ht as (t0 & <- & _). revert E.
  unfold str_eqb. destruct (jsstring_eq_dec (id t0) taskId); cbn; [reflexivity|congruence].
Qed.

Lemma markCompleted_map (taskId : jsstring) (batch : list WaterTask) :
  map id (markCompleted taskId batch) = map id batch
  /\ map amount (markCompleted taskId batch) = map amount batch
  /\ map time (markCompleted taskId batch) = map time batch
  /\ map completed (markCompleted taskId batch)
     = map (fun t => completed t || str_eqb (id t) taskId) batch.
Proof.
  unfold markCompleted. rewrite !map_map.
  repeat split; apply map_ext; intros t; destruct (str_eqb (id t) taskId); cbn;
    try reflexivity; [apply eq_sym, orb_true_r | apply eq_sym, orb_false_r].
Qed.

(** C4.  Completing a task whose id is not in the batch changes nothing;
    completing one that is already completed adds nothing to the intake; after
    a completion every task with that id is completed, flags only ever go from
    false to true, and a second completion with the same id leaves the state,
    and so the intake, as the first one left it. *)
Theorem completeTask_idempotent (taskId : jsstring) (st : State) :
  ((forall t, In t (waterTasks st) -> id t <> taskId) ->
     completeTask (waterTasks st) taskId = (waterTasks st, 0)
     /\ handleTaskCompletion taskId st = st)
  /\ ((forall t, In t (waterTasks st) -> id t = taskId -> completed t = true) ->
        snd (completeTask (waterTasks st) taskId) = 0
        /\ waterIntake (handleTaskCompletion taskId st) = waterIntake st)
  /\ waterTasks (handleTaskCompletion taskId st) = fst (completeTask (waterTasks st) taskId)
  /\ waterIntake (handleTaskCompletion taskId st)
     = waterIntake st + snd (completeTask (waterTasks st) taskId)
  /\ (forall t, In t (waterTasks (handleTaskCompletion taskId st)) ->
        id t = taskId -> completed t = true)
  /\ map completed (waterTasks (handleTaskCompletion taskId st))
     = map (fun t => completed t || str_eqb (id t) taskId) (waterTasks st)
  /\ handleTaskCompletion taskId (handleTaskCompletion taskId st)
     = handleTaskCompletion taskId st.
Proof.
  assert (Done : forall s, (forall t, In t (waterTasks s) -> id t = taskId -> completed t = true) ->
                           completeTask (waterTasks s) taskId = (waterTasks s, 0)
                           /\ handleTaskCompletion taskId s = s).
  { intros s H. rewrite handleTaskCompletion_eq. unfold completeTask.
    rewrite (pendingAmounts_none _ _ H), (markCompleted_done _ _ H). cbn.
    rewrite Z.add_0_r, app_nil_r. split; [reflexivity | destruct s; reflexivity]. }
  split; [|split; [|split; [|split; [|split; [|split]]]]].
  - intros H. apply Done. intros t Ht E. destruct (H t Ht E).
  - intros H. destruct (Done st H) as [E1 E2]. rewrite E1, E2. split; reflexivity.
  - rewrite handleTaskCompletion_eq. reflexivity.
  - rewrite handleTaskCompletion_eq. reflexivity.
  - rewrite handleTaskCompletion_eq. cbn. apply markCompleted_flags.
  - rewrite handleTaskCompletion_eq. cbn. apply markCompleted_map.
  - apply Done. rewrite handleTaskCompletion_eq. cbn. apply markCompleted_flags.
Qed.

Lemma completeTask_idempotent_witness :
  let t0 := mkWaterTask (lit "task-0") 0 250 false in
  let t1 := mkWaterTask (lit "task-1") 0 250 true in
  let st := mkState [] [] false None 0 2000 [t0; t1] [] [] None in
  handleTaskCompletion (lit "task-9") st = st
  /\ waterIntake (handleTaskCompletion (lit "task-1") st) = waterIntake st.
Proof.
  intros t0 t1 st. split.
  - apply (proj1 (completeTask_idempotent (lit "task-9") st)).
    intros t [<-|[<-|[]]] E; vm_compute in E; discriminate E.
  - apply (proj1 (proj2 (completeTask_idempotent (lit "task-1") st))).
    intros t [<-|[<-|[]]] E; [vm_compute in E; discriminate E | reflexivity].
Defined.

(** ** The chat handler *)

Lemma matchLocation_iff (s : jsstring) :
  matchLocation s = true
  <-> s <> [] /\ Forall (fun c => isAsciiLetter c = true \/ isWhiteSpace c = true) s.
Proof.
  unfold matchLocation. rewrite andb_true_iff, forallb_forall, Forall_forall.
  split; intros [H1 H2]; split.
  - destruct s; [discriminate | discriminate].
  - intros c Hc. apply orb_true_iff. auto.
  - destruct s; [contradiction | reflexivity].
  - intros c Hc. apply orb_true_iff. auto.
Qed.

Lemma truthy_iff (s : jsstring) : truthy s = true <-> s <> [].
Proof. destruct s; cbn; split; congruence. Qed.

Lemma matchVolume_nonempty (s : jsstring) : matchVolume s = true -> truthy s = true.
Proof. destruct s; [discriminate | reflexivity]. Qed.

Lemma digitValue_nonneg (c : N) : isDigit c = true -> 0 <= digitValue c.
Proof. rewrite isDigit_range. unfold digitValue. lia. Qed.

Lemma parseInt_nonneg (s : jsstring) : 0 <= parseInt s.
Proof.
  unfold parseInt. pose proof (takeWhile_all isDigit s) as H.
  assert (G : forall l acc, forallb isDigit l = true -> 0 <= acc ->
                0 <= fold_left (fun acc c => acc * 10 + digitValue c) l acc).
  { induction l as [|c l IH]; intros acc Hl Hacc; cbn; [exact Hacc|].
    cbn in Hl. apply andb_true_iff in Hl. destruct Hl as [Hc Hl].
    apply IH; [exact Hl|]. pose proof (digitValue_nonneg c Hc). lia. }
  apply G; [exact H | lia].
Qed.

Lemma loggedAmount_nonneg (s : jsstring) : 0 <= loggedAmount s.
Proof. apply parseInt_nonneg. Qed.

(** On an accepted submission the handler echoes the line and then acts on
    the intent [classify] finds in it. *)
Lemma handleSendMessage_classify (w : World) (st : State) :
  isLoading st = false ->
  truthy (trim (input st)) = true ->
  handleSendMessage w st
  = let userMessage := trim (input st) in
    let st2 := setMessages (fun prev => prev ++ [userMsg w userMessage]) (setInput [] st) in
    match classify userMessage with
    | Location name => setAwaiting (Some name) (fetchWeather_request st2)
    | VolumeLog amount =>
        let total := waterIntake st + amount in
        let progress := fmul (fdiv (inject_Z total) (inject_Z (dailyGoal st))) 100 in
        addBotMessage w
          (if Qle_bool 100 progress then GoalReached (dailyGoal st)
           else Logged amount total (Math_round progress))
          (setWaterIntake (fun prev => prev + amount) st2)
    | Unrecognized => addBotMessage w Help st2
    end.
Proof.
  intros HL Hne. unfold handleSendMessage, classify. rewrite HL, Hne. cbn [negb orb].
  destruct (matchLocation (trim (input st))); [reflexivity|].
  destruct (matchVolume (trim (input st))); [|reflexivity].
  cbv zeta. destruct (Qle_bool _ _); reflexivity.
Qed.

(** C8, as amended.  A line that is empty after trimming is ignored: the state
    is left as it is.  A non-empty trimmed line made only of the letters a-z,
    A-Z and of blanks is a location:
    the line is echoed, the loading flag is raised and the handler waits for
    the weather of that location.  A line that is neither a location nor a
    volume is unrecognised: the line is echoed, the help message follows, and
    nothing else changes but the emptied input field. *)
Theorem chat_dispatch (w : World) (st : State) :
  (trim (input st) = [] -> handleSendMessage w st = st)
  /\ (isLoading st = false ->
      trim (input st) <> [] ->
      Forall (fun c => isAsciiLetter c = true \/ isWhiteSpace c = true) (trim (input st)) ->
      classify (trim (input st)) = Location (trim (input st))
      /\ handleSendMessage w st
         = mkState (messages st ++ [userMsg w (trim (input st))]) [] true
             (weather st) (waterIntake st) (dailyGoal st) (waterTasks st)
             (currentLocation st) (toasts st) (Some (trim (input st))))
  /\ (isLoading st = false ->
      trim (input st) <> [] ->
      matchLocation (trim (input st)) = false ->
      matchVolume (trim (input st)) = false ->
      classify (trim (input st)) = Unrecognized
      /\ handleSendMessage w st
         = mkState (messages st ++ [userMsg w (trim (input st)); botMsg w Help]) [] false
             (weather st) (waterIntake st) (dailyGoal st) (waterTasks st)
             (currentLocation st) (toasts st) (awaiting st)).
Proof.
  split; [|split].
  - intros E. unfold handleSendMessage. rewrite E. reflexivity.
  - intros HL Hne Hall.
    assert (M : matchLocation (trim (input st)) = true)
      by (apply matchLocation_iff; auto).
    apply truthy_iff in Hne.
    unfold classify, handleSendMessage. rewrite M, Hne, HL.
    split; reflexivity.
  - intros HL Hne ML MV. apply truthy_iff in Hne.
    unfold classify, handleSendMessage. rewrite ML, MV, Hne, HL.
    unfold addBotMessage, setMessages. cbn.
    rewrite HL, <- app_assoc. split; reflexivity.
Qed.

Lemma chat_dispatch_witness :
  let w := mkWorld 1700000000123 0 (fun _ => 1 # 2) in
  handleSendMessage w (setInput (lit "   ") (init w)) = setInput (lit "   ") (init w)
  /\ awaiting (handleSendMessage w (setInput (lit " New York ") (init w)))
     = Some (lit "New York")
  /\ classify (trim (lit "250")) = Unrecognized.
Proof.
  intros w. split; [|split].
  - apply (proj1 (chat_dispatch w (setInput (lit "   ") (init w)))). reflexivity.
  - destruct (proj1 (proj2 (chat_dispatch w (setInput (lit " New York ") (init w)))))
      as [_ E]; [reflexivity | discriminate | | rewrite E; reflexivity].
    vm_compute.
    repeat (apply Forall_cons; [first [left; reflexivity | right; reflexivity]|]).
    apply Forall_nil.
  - apply (proj2 (proj2 (chat_dispatch w (setInput (lit "250") (init w))))
             eq_refl ltac:(discriminate) eq_refl eq_refl).
Defined.

(** C8 as stated fails.  Zurich written with u-umlaut (U+00FC) is trimmed, not
    empty, made of letters only, without digit or punctuation; yet it is not
    classified as a location: the handler echoes it, answers with the help
    message and waits for no weather. *)
Lemma location_letters_counterexample :
  let zurich := [90; 252; 114; 105; 99; 104]%N in
  let w := mkWorld 1700000000123 0 (fun _ => 1 # 2) in
  trim zurich = zurich
  /\ lettersAndWhitespaceOnly zurich = true
  /\ existsb isDigit zurich = false
  /\ classify zurich = Unrecognized
  /\ messages (handleSendMessage w (setInput zurich (init w)))
     = messages (init w) ++ [userMsg w zurich; botMsg w Help]
  /\ awaiting (handleSendMessage w (setInput zurich (init w))) = None
  /\ isLoading (handleSendMessage w (setInput zurich (init w))) = false.
Proof. repeat split; reflexivity. Qed.



(** ** Weather failures *)

Lemma resume_failure (w : World) (r : Response) (st : State) (location : jsstring) :
  isFailure r = true ->
  awaiting st = Some location ->
  exists cs ts,
    handleSendMessage_resume w r st
    = mkState (messages st ++ map (botMsg w) (cs ++ [TryAnother])) (input st) false
        (weather st) (waterIntake st) (dailyGoal st) (waterTasks st)
        (currentLocation st) (toasts st ++ ts) None
    /\ match r with
       | AxiosError status =>
           match status with
           | Some s =>
               if s =? 401 then cs = [ServiceTrouble] /\ ts = [ToastInvalidKey]
               else if s =? 404 then cs = [LocationUnknown] /\ ts = [ToastNotFound]
               else cs = [WeatherTrouble] /\ ts = [ToastCouldNotFetch]
           | None => cs = [WeatherTrouble] /\ ts = [ToastCouldNotFetch]
           end
       | _ => cs = [] /\ ts = []
       end.
Proof.
  intros F A. unfold handleSendMessage_resume. rewrite A.
  destruct r as [t h d|status|]; [discriminate| |].
  - unfold fetchWeather_settle.
    destruct status as [s|]; [destruct (s =? 401); [|destruct (s =? 404)]|];
      eexists _, _; (split; [|split; reflexivity]);
      unfold addBotMessage, setMessages, setIsLoading, toast, setAwaiting; cbn;
      rewrite <- ?app_assoc; reflexivity.
  - exists [], []. split; [|split; reflexivity].
    unfold fetchWeather_settle, addBotMessage, setMessages, setIsLoading, setAwaiting. cbn.
    rewrite app_nil_r. reflexivity.
Qed.

(** C5.  When the request fails, with status 401, with status 404 or in any
    other way, the continuation of the handler leaves the intake, the goal and
    the task batch (and the stored weather and location) as they were; it
    lowers the loading flag and appends assistant messages and at most one
    notification, nothing else.  Counted from the submission of the location
    line, the three values are unchanged as well. *)
Theorem fetch_failure_keeps_state (w : World) (r : Response) (st : State) :
  isFailure r = true ->
  (waterIntake (handleSendMessage_resume w r st) = waterIntake st
   /\ dailyGoal (handleSendMessage_resume w r st) = dailyGoal st
   /\ waterTasks (handleSendMessage_resume w r st) = waterTasks st
   /\ weather (handleSendMessage_resume w r st) = weather st
   /\ currentLocation (handleSendMessage_resume w r st) = currentLocation st)
  /\ (forall location, awaiting st = Some location ->
        exists cs ts,
          (List.length ts <= 1)%nat
          /\ handleSendMessage_resume w r st
             = mkState (messages st ++ map (botMsg w) (cs ++ [TryAnother])) (input st) false
                 (weather st) (waterIntake st) (dailyGoal st) (waterTasks st)
                 (currentLocation st) (toasts st ++ ts) None
          /\ (r = AxiosError (Some 401) -> cs = [ServiceTrouble] /\ ts = [ToastInvalidKey])
          /\ (r = AxiosError (Some 404) -> cs = [LocationUnknown] /\ ts = [ToastNotFound])
          /\ (forall status, r = AxiosError status ->
                status <> Some 401 -> status <> Some 404 ->
                cs = [WeatherTrouble] /\ ts = [ToastCouldNotFetch]))
  /\ (forall w0 st0,
        st = handleSendMessage w0 st0 ->
        matchLocation (trim (input st0)) = true ->
        waterIntake (handleSendMessage_resume w r st) = waterIntake st0
        /\ dailyGoal (handleSendMessage_resume w r st) = dailyGoal st0
        /\ waterTasks (handleSendMessage_resume w r st) = waterTasks st0).
Proof.
  intros F.
  assert (K : waterIntake (handleSendMessage_resume w r st) = waterIntake st
              /\ dailyGoal (handleSendMessage_resume w r st) = dailyGoal st
              /\ waterTasks (handleSendMessage_resume w r st) = waterTasks st
              /\ weather (handleSendMessage_resume w r st) = weather st
              /\ currentLocation (handleSendMessage_resume w r st) = currentLocation st).
  { destruct (awaiting st) as [location|] eqn:A.
    - destruct (resume_failure w r st location F A) as (cs & ts & -> & _).
      repeat split; reflexivity.
    - unfold handleSendMessage_resume. rewrite A. repeat split; reflexivity. }
  split; [exact K|]. split.
  - intros location A.
    destruct (resume_failure w r st location F A) as (cs & ts & E & K2).
    exists cs, ts. split; [|split; [exact E|]].
    + destruct r as [| [s|] |]; try discriminate;
        [destruct (s =? 401); [|destruct (s =? 404)]| |];
        destruct K2 as [_ ->]; cbn; lia.
    + split; [|split].
      * intros ->. exact K2.
      * intros ->. exact K2.
      * intros status -> H1 H4. destruct status as [s|]; [|exact K2].
        destruct (Z.eqb_spec s 401) as [->|_]; [congruence|].
        destruct (Z.eqb_spec s 404) as [->|_]; [congruence|]. exact K2.
  - intros w0 st0 -> ML. destruct K as (K1 & K2 & K3 & _).
    rewrite K1, K2, K3. unfold handleSendMessage.
    destruct (negb (truthy (trim (input st0))) || isLoading st0);
      [repeat split; reflexivity|].
    rewrite ML. repeat split; reflexivity.
Qed.

Lemma fetch_failure_keeps_state_witness :
  let w := mkWorld 1700000000123 0 (fun _ => 1 # 2) in
  let st0 := mkState [] (lit "Atlantis") false None 306 2450 [] [] [] None in
  let st1 := handleSendMessage_resume w (AxiosError (Some 404)) (handleSendMessage w st0) in
  (waterIntake st1 = 306 /\ dailyGoal st1 = 2450 /\ waterTasks st1 = [])
  /\ toasts st1 = [ToastNotFound].
Proof.
  intros w st0 st1. split.
  - exact (proj2 (proj2 (fetch_failure_keeps_state w (AxiosError (Some 404))
                           (handleSendMessage w st0) eq_refl))
             w st0 eq_refl eq_refl).
  - destruct (proj1 (proj2 (fetch_failure_keeps_state w (AxiosError (Some 404))
                              (handleSendMessage w st0) eq_refl))
                (lit "Atlantis") eq_refl)
      as (cs & ts & _ & E & _ & H404 & _).
    destruct (H404 eq_refl) as [_ ->].
    unfold st1. rewrite E. reflexivity.
Defined.

(** ** Sessions: the invariant and the growth of the intake *)

Lemma handleSendMessage_keeps (w : World) (st : State) :
  dailyGoal (handleSendMessage w st) = dailyGoal st
  /\ waterTasks (handleSendMessage w st) = waterTasks st
  /\ waterIntake st <= waterIntake (handleSendMessage w st).
Proof.
  unfold handleSendMessage.
  destruct (negb (truthy (trim (input st))) || isLoading st);
    [repeat split; reflexivity || lia|].
  destruct (matchLocation (trim (input st))); [repeat split; reflexivity || lia|].
  destruct (matchVolume (trim (input st))); [|repeat split; reflexivity || cbn; lia].
  pose proof (loggedAmount_nonneg (trim (input st))).
  destruct (Qle_bool _ _); repeat split; try reflexivity; cbn; lia.
Qed.

Lemma amountPerTask_nonneg (g : Z) : 2000 <= g -> 0 <= amountPerTask g.
Proof. intros H. pose proof (amountPerTask_bounds g). lia. Qed.

(** A settled request with a usable body: the observation is stored, the
    goal and the batch are replaced, two assistant messages are appended. *)
Lemma resume_success (w : World) (t : Q) (h : Z) (d : jsstring) (st : State)
    (location : jsstring) :
  awaiting st = Some location ->
  handleSendMessage_resume w (Fulfilled t h d) st
  = mkState
      (messages st
       ++ [botMsg w (Recommendation (roundedIntake (mkWeatherData (Math_round t) h d)));
           botMsg w (WeatherReport location (Math_round t) h d)])
      (input st) false (Some (mkWeatherData (Math_round t) h d)) (waterIntake st)
      (roundedIntake (mkWeatherData (Math_round t) h d))
      (generateTasks w (roundedIntake (mkWeatherData (Math_round t) h d)))
      location (toasts st) None.
Proof.
  intros A. unfold handleSendMessage_resume. rewrite A.
  change ([botMsg w (Recommendation (roundedIntake (mkWeatherData (Math_round t) h d)));
           botMsg w (WeatherReport location (Math_round t) h d)])
    with ([botMsg w (Recommendation (roundedIntake (mkWeatherData (Math_round t) h d)))]
          ++ [botMsg w (WeatherReport location (Math_round t) h d)]).
  rewrite app_assoc. reflexivity.
Qed.

Lemma resume_keeps (w : World) (r : Response) (st : State) :
  Inv st ->
  Inv (handleSendMessage_resume w r st)
  /\ waterIntake (handleSendMessage_resume w r st) = waterIntake st.
Proof.
  intros [Hg Ht].
  destruct (awaiting st) as [location|] eqn:A;
    [|unfold handleSendMessage_resume; rewrite A; repeat split; assumption].
  destruct r as [t h d|status|].
  - rewrite (resume_success w t h d st location A).
    split; [|reflexivity]. split; cbn [dailyGoal waterTasks].
    + apply roundedIntake_ge_2000.
    + eapply Forall_impl; [|apply generateTasks_fields].
      intros a [_ ->]. apply amountPerTask_nonneg, roundedIntake_ge_2000.
  - destruct (resume_failure w (AxiosError status) st location eq_refl A)
      as (cs & ts & -> & _).
    split; [split; assumption | reflexivity].
  - destruct (resume_failure w OtherError st location eq_refl A) as (cs & ts & -> & _).
    split; [split; assumption | reflexivity].
Qed.

Lemma Zsum_nonneg (l : list Z) : Forall (fun a => 0 <= a) l -> 0 <= Zsum l.
Proof. unfold Zsum. induction 1; cbn [fold_right]; lia. Qed.

Lemma pendingAmounts_nonneg (taskId : jsstring) (batch : list WaterTask) :
  Forall (fun t => 0 <= amount t) batch ->
  Forall (fun a => 0 <= a) (pendingAmounts taskId batch).
Proof.
  intros H. unfold pendingAmounts. rewrite Forall_map.
  rewrite Forall_forall in *. intros t Ht. apply filter_In in Ht. apply H, Ht.
Qed.

Lemma completion_keeps (taskId : jsstring) (st : State) :
  Inv st ->
  Inv (handleTaskCompletion taskId st)
  /\ waterIntake st <= waterIntake (handleTaskCompletion taskId st).
Proof.
  intros [Hg Ht]. rewrite handleTaskCompletion_eq. unfold completeTask, Inv.
  cbn [waterIntake dailyGoal waterTasks fst snd]. split; [split|].
  - exact Hg.
  - destruct (markCompleted_map taskId (waterTasks st)) as (_ & E & _).
    rewrite <- (Forall_map amount (fun a => 0 <= a)) in *. rewrite E. exact Ht.
  - pose proof (Zsum_nonneg _ (pendingAmounts_nonneg taskId _ Ht)). lia.
Qed.

Lemma step_keeps (st : State) (e : World * Event) :
  Inv st -> Inv (step st e) /\ waterIntake st <= waterIntake (step st e).
Proof.
  intros I. destruct e as [w [value| |r|taskId]]; cbn [step].
  - destruct I. repeat split; cbn; auto; lia.
  - destruct I as [Hg Ht]. destruct (handleSendMessage_keeps w st) as (E1 & E2 & E3).
    unfold Inv. rewrite E1, E2. auto.
  - destruct (resume_keeps w r st I) as [I' E]. split; [exact I' | lia].
  - now apply completion_keeps.
Qed.

Lemma reachable_Inv (st : State) : reachable st -> Inv st.
Proof.
  induction 1 as [w|st e _ IH].
  - split; cbn; [lia | constructor].
  - now apply step_keeps.
Qed.

(** The goal of a session is never below 2000. *)
Lemma dailyGoal_ge_2000 (st : State) : reachable st -> 2000 <= dailyGoal st.
Proof. intros H. apply (reachable_Inv st H). Qed.

Lemma run_keeps (evs : list (World * Event)) (st : State) :
  Inv st -> Inv (run st evs) /\ waterIntake st <= waterIntake (run st evs).
Proof.
  unfold run. revert st. induction evs as [|e evs IH]; intros st I; cbn [fold_left].
  - split; [exact I | lia].
  - destruct (step_keeps st e I) as [I1 L1].
    destruct (IH (step st e) I1) as [I2 L2]. split; [exact I2 | lia].
Qed.

(** C9.  In a session, that is from the initial state through any sequence
    of input changes, submissions, settled requests and task clicks, no event
    lowers the intake: after each event, and after any further run of events,
    it is at least what it was before. *)
Theorem intake_monotone (st : State) :
  reachable st ->
  (forall e, waterIntake st <= waterIntake (step st e))
  /\ (forall evs, waterIntake st <= waterIntake (run st evs)).
Proof.
  intros R. pose proof (reachable_Inv st R) as I. split.
  - intros e. apply (step_keeps st e I).
  - intros evs. apply (run_keeps evs st I).
Qed.

(** After the Paris observation (eight tasks of 306 ml) a task click and a
    logged "300 ml" raise the intake from 0 to 306 and to 606. *)
Lemma intake_monotone_witness :
  let w := mkWorld 1700000000123 0 (fun _ => 1 # 2) in
  let st :=
    run (init w)
      [(w, InputChange (lit "Paris")); (w, FormSubmit);
       (w, FetchSettled (Fulfilled 30 70 (lit "clear sky")))] in
  let evs :=
    [(w, TaskClick (lit "task-3")); (w, InputChange (lit "300 ml")); (w, FormSubmit)] in
  (waterIntake st = 0
   /\ waterIntake (step st (w, TaskClick (lit "task-3"))) = 306
   /\ waterIntake (run st evs) = 606)
  /\ waterIntake st <= waterIntake (step st (w, TaskClick (lit "task-3")))
  /\ waterIntake st <= waterIntake (run st evs).
Proof.
  intros w st evs.
  assert (R : reachable st).
  { exact (reachable_step _ (w, FetchSettled (Fulfilled 30 70 (lit "clear sky")))
             (reachable_step _ (w, FormSubmit)
                (reachable_step _ (w, InputChange (lit "Paris")) (reachable_init w)))). }
  split; [repeat split; vm_compute; reflexivity|]. split.
  - exact (proj1 (intake_monotone st R) (w, TaskClick (lit "task-3"))).
  - exact (proj2 (intake_monotone st R) evs).
Defined.

(** The end-to-end example of the specification: "Paris" is submitted, the
    request returns 30 degrees and 70 percent; the goal becomes 2450 and eight
    tasks of 306 ml are scheduled. *)
Example paris_session (w0 w1 w2 : World) :
  let st :=
    run (init w0)
      [(w1, InputChange (lit "Paris")); (w1, FormSubmit);
       (w2, FetchSettled (Fulfilled 30 70 (lit "clear sky")))] in
  dailyGoal st = 2450
  /\ map amount (waterTasks st) = [306; 306; 306; 306; 306; 306; 306; 306]
  /\ waterIntake st = 0.
Proof.
  intros st. subst st. unfold run. cbn [fold_left step].
  assert (A : awaiting (handleSendMessage w1 (setInput (lit "Paris") (init w0)))
              = Some (lit "Paris")) by reflexivity.
  assert (Z0 : waterIntake (handleSendMessage w1 (setInput (lit "Paris") (init w0))) = 0)
    by reflexivity.
  rewrite (resume_success w2 30 70 (lit "clear sky") _ (lit "Paris") A).
  cbn [dailyGoal waterTasks waterIntake].
  split; [reflexivity|]. split; [|exact Z0].
  pose proof (generateTasks_fields w2 (roundedIntake (mkWeatherData (Math_round 30) 70 (lit "clear sky")))) as F.
  pose proof (generateTasks_length w2 (roundedIntake (mkWeatherData (Math_round 30) 70 (lit "clear sky")))) as L.
  destruct (generateTasks w2 _) as [|a0 [|a1 [|a2 [|a3 [|a4 [|a5 [|a6 [|a7 [|a8 l]]]]]]]]];
    try discriminate L.
  repeat match goal with
         | H : Forall _ (_ :: _) |- _ => inversion H as [|? ? [_ ?] ?]; subst; clear H
         end.
  cbn [map]. repeat f_equal; assumption.
Qed.

(* ================================================================== *)
(** * Part III: further properties of the component *)
(* ================================================================== *)

(** ** The schedule *)

Lemma loopTask_ids (w : World) (g : Z) :
  map id (map (loopTask w g) (seq 0 tasksCount))
  = map (fun i => lit "task-" ++ Number_toString i) (seq 0 8).
Proof. rewrite map_map. reflexivity. Qed.

Lemma task_ids_NoDup :
  NoDup (map (fun i => lit "task-" ++ Number_toString i) (seq 0 8)).
Proof.
  cbn [seq map].
  repeat (constructor; [vm_compute; intuition discriminate|]).
  constructor.
Qed.

Lemma generateTasks_perm (w : World) (g : Z) :
  Permutation (map (loopTask w g) (seq 0 8)) (generateTasks w g).
Proof. apply (Array_sort_perm (fun t => getTime (time t))). Qed.

Lemma generateTasks_ids_perm (w : World) (g : Z) :
  Permutation (map (fun i => lit "task-" ++ Number_toString i) (seq 0 8))
    (map id (generateTasks w g)).
Proof. rewrite <- (loopTask_ids w g). apply Permutation_map, generateTasks_perm. Qed.

Lemma generateTasks_NoDup (w : World) (g : Z) : NoDup (map id (generateTasks w g)).
Proof.
  eapply Permutation_NoDup; [apply generateTasks_ids_perm | apply task_ids_NoDup].
Qed.

(** X1.  Whatever the clock, the goal and the random numbers, the batch holds
    the eight pushed tasks in some order: its ids are task-0 ... task-7, each
    once. *)
Theorem generateTasks_ids (w : World) (g : Z) :
  Permutation (map (loopTask w g) (seq 0 8)) (generateTasks w g)
  /\ Permutation (map (fun i => lit "task-" ++ Number_toString i) (seq 0 8))
       (map id (generateTasks w g))
  /\ NoDup (map id (generateTasks w g)).
Proof.
  repeat split;
    [apply generateTasks_perm | apply generateTasks_ids_perm | apply generateTasks_NoDup].
Qed.

(** X2.  The goal never falls when it gets hotter or more humid; it is at
    least 2000, and exactly 2000 when the temperature is at most 25 and the
    humidity at most 60. *)
Theorem goal_monotone (t1 t2 h1 h2 : Z) (d1 d2 : jsstring) :
  t1 <= t2 -> h1 <= h2 ->
  roundedIntake (mkWeatherData t1 h1 d1) <= roundedIntake (mkWeatherData t2 h2 d2)
  /\ 2000 <= roundedIntake (mkWeatherData t1 h1 d1)
  /\ (roundedIntake (mkWeatherData t1 h1 d1) = 2000 <-> t1 <= 25 /\ h1 <= 60).
Proof.
  intros Ht Hh. rewrite !roundedIntake_eq.
  destruct (Z.gtb_spec t1 25), (Z.gtb_spec t2 25), (Z.gtb_spec h1 60), (Z.gtb_spec h2 60);
    repeat split; intros; lia.
Qed.

Lemma goal_monotone_witness :
  roundedIntake (mkWeatherData 24 70 []) <= roundedIntake (mkWeatherData 31 75 []).
Proof.
  refine (proj1 (goal_monotone 24 31 70 75 [] [] _ _)); lia.
Defined.

(** X3.  With every random number in [[0, 1)] the tasks of the batch lie on
    the local day of the clock, between 09:00 and 19:58, keep the seconds and
    milliseconds of the clock, and each is at least two minutes later than
    the one before. *)
Theorem schedule_window (w : World) (g : Z) :
  (forall i, (0 <= random w i)%Q /\ (random w i < 1)%Q) ->
  Forall (fun t =>
            Day (LocalTime (LocalTZA w) (time t)) = Day (LocalTime (LocalTZA w) (clock w))
            /\ 9 <= getHours (LocalTZA w) (time t) <= 19
            /\ 0 <= getMinutes (LocalTZA w) (time t) <= 58
            /\ SecFromTime (LocalTime (LocalTZA w) (time t))
               = SecFromTime (LocalTime (LocalTZA w) (clock w))
            /\ msFromTime (LocalTime (LocalTZA w) (time t))
               = msFromTime (LocalTime (LocalTZA w) (clock w)))
    (generateTasks w g)
  /\ StronglySorted (fun a b => getTime (time a) + 120000 <= getTime (time b))
       (generateTasks w g).
Proof.
  intros Hr.
  assert (E : generateTasks w g = map (loopTask w g) (seq 0 8)).
  { unfold generateTasks.
    apply (Array_sort_ascending (fun t => getTime (time t))).
    now apply loopTasks_ascending. }
  assert (M : forall i, 0 <= ToIntegerOrInfinity (random w i * 59) <= 58).
  { intros i. destruct (Hr i). now apply random_minute_range. }
  assert (L : forall i, (i < 8)%nat ->
            LocalTime (LocalTZA w) (time (loopTask w g i))
            = MakeDate (Day (LocalTime (LocalTZA w) (clock w)))
                (MakeTime (nth i [9; 10; 12; 13; 15; 16; 18; 19] 0)
                   (ToIntegerOrInfinity (random w i * 59))
                   (SecFromTime (LocalTime (LocalTZA w) (clock w)))
                   (msFromTime (LocalTime (LocalTZA w) (clock w))))).
  { intros i Hi. destruct (Hr i) as [H0 H1]. exact (loopTask_local_time w g i Hi H0 H1). }
  rewrite E. split.
  - apply Forall_forall. intros t Ht. apply in_map_iff in Ht.
    destruct Ht as (i & <- & Hi). apply in_seq in Hi.
    assert (Hi8 : (i < 8)%nat) by lia.
    unfold getHours, getMinutes. rewrite (L i Hi8).
    destruct (loop_hour i Hi8) as [_ Hh].
    set (t0 := LocalTime (LocalTZA w) (clock w)).
    destruct (TimeFromParts (Day t0) (nth i [9; 10; 12; 13; 15; 16; 18; 19] 0)
                (ToIntegerOrInfinity (random w i * 59)) (SecFromTime t0) (msFromTime t0))
      as (-> & -> & -> & -> & ->);
      auto using SecFromTime_range, msFromTime_range; try lia.
    pose proof (M i). repeat split; lia.
  - assert (L' : forall i, (i < 8)%nat ->
              getTime (time (loopTask w g i)) + LocalTZA w
              = MakeDate (Day (LocalTime (LocalTZA w) (clock w)))
                  (MakeTime (nth i [9; 10; 12; 13; 15; 16; 18; 19] 0)
                     (ToIntegerOrInfinity (random w i * 59))
                     (SecFromTime (LocalTime (LocalTZA w) (clock w)))
                     (msFromTime (LocalTime (LocalTZA w) (clock w))))) by exact L.
    pose proof (L' 0%nat ltac:(lia)) as L0. pose proof (L' 1%nat ltac:(lia)) as L1.
    pose proof (L' 2%nat ltac:(lia)) as L2. pose proof (L' 3%nat ltac:(lia)) as L3.
    pose proof (L' 4%nat ltac:(lia)) as L4. pose proof (L' 5%nat ltac:(lia)) as L5.
    pose proof (L' 6%nat ltac:(lia)) as L6. pose proof (L' 7%nat ltac:(lia)) as L7.
    pose proof (M 0%nat) as M0. pose proof (M 1%nat) as M1. pose proof (M 2%nat) as M2.
    pose proof (M 3%nat) as M3. pose proof (M 4%nat) as M4. pose proof (M 5%nat) as M5.
    pose proof (M 6%nat) as M6. pose proof (M 7%nat) as M7.
    clear L L' M E Hr.
    unfold MakeDate, MakeTime, msPerDay, msPerHour, msPerMinute, msPerSecond in *.
    cbn [nth] in *. cbn [seq map].
    repeat (constructor; [|repeat (constructor; [lia|]); constructor]).
    constructor.
Qed.

Lemma schedule_window_witness :
  let w := mkWorld 1700000000123 3600000 (fun _ => 1 # 2) in
  StronglySorted (fun a b => getTime (time a) + 120000 <= getTime (time b))
    (generateTasks w 2450).
Proof.
  intros w. refine (proj2 (schedule_window w 2450 _)).
  intros i. split; [discriminate | reflexivity].
Defined.

(** ** The weather request *)

(** X4.  When the awaited request delivers an observation, the goal becomes
    the one computed from it and the batch is replaced wholesale by eight
    fresh tasks, none completed, whatever was completed before; the intake is
    kept; the observation and the location are stored, the loading flag is
    lowered, and the recommendation precedes the weather report in the chat. *)
Theorem fetch_success_replaces (w : World) (t : Q) (h : Z) (d : jsstring) (st : State)
    (location : jsstring) :
  awaiting st = Some location ->
  let st1 := handleSendMessage_resume w (Fulfilled t h d) st in
  let goal := roundedIntake (mkWeatherData (Math_round t) h d) in
  dailyGoal st1 = goal
  /\ waterTasks st1 = generateTasks w goal
  /\ List.length (waterTasks st1) = 8%nat
  /\ Forall (fun task => completed task = false /\ amount task = amountPerTask goal)
       (waterTasks st1)
  /\ waterIntake st1 = waterIntake st
  /\ weather st1 = Some (mkWeatherData (Math_round t) h d)
  /\ currentLocation st1 = location
  /\ isLoading st1 = false /\ awaiting st1 = None
  /\ messages st1
     = messages st ++ [botMsg w (Recommendation goal);
                       botMsg w (WeatherReport location (Math_round t) h d)]
  /\ toasts st1 = toasts st.
Proof.
  intros A st1 goal. subst st1. rewrite (resume_success w t h d st location A).
  cbn [dailyGoal waterTasks waterIntake weather currentLocation isLoading awaiting
         messages toasts].
  fold goal.
  repeat split; try reflexivity.
  - apply generateTasks_length.
  - apply generateTasks_fields.
Qed.

Lemma fetch_success_replaces_witness :
  let w := mkWorld 1700000000123 0 (fun _ => 1 # 2) in
  let done := mkWaterTask (lit "task-0") 0 250 true in
  let st := mkState [] [] true None 250 2000 [done] [] [] (Some (lit "Oslo")) in
  let st1 := handleSendMessage_resume w (Fulfilled (-3 # 2) 90 (lit "snow")) st in
  dailyGoal st1 = 2600 /\ waterIntake st1 = 250.
Proof.
  intros w done st st1.
  destruct (fetch_success_replaces w (-3 # 2) 90 (lit "snow") st (lit "Oslo") eq_refl)
    as (G & _ & _ & _ & I & _).
  split; [exact G | exact I].
Defined.

Lemma handleSendMessage_loading (w : World) (st : State) :
  LoadingCoherent st -> LoadingCoherent (handleSendMessage w st).
Proof.
  unfold LoadingCoherent, handleSendMessage. intros C.
  destruct (negb (truthy (trim (input st))) || isLoading st) eqn:G; [exact C|].
  apply orb_false_iff in G. destruct G as [_ HL].
  destruct (matchLocation (trim (input st))).
  - cbn. split; [discriminate | reflexivity].
  - destruct (matchVolume (trim (input st))); [destruct (Qle_bool _ _)|]; cbn; exact C.
Qed.

Lemma resume_settled (w : World) (r : Response) (st : State) (location : jsstring) :
  awaiting st = Some location ->
  isLoading (handleSendMessage_resume w r st) = false
  /\ awaiting (handleSendMessage_resume w r st) = None.
Proof.
  intros A. destruct r as [t h d|status|].
  - rewrite (resume_success w t h d st location A). split; reflexivity.
  - destruct (resume_failure w (AxiosError status) st location eq_refl A)
      as (cs & ts & -> & _). split; reflexivity.
  - destruct (resume_failure w OtherError st location eq_refl A) as (cs & ts & -> & _).
    split; reflexivity.
Qed.

Lemma step_loading (st : State) (e : World * Event) :
  LoadingCoherent st -> LoadingCoherent (step st e).
Proof.
  intros C. destruct e as [w [value| |r|taskId]]; cbn [step].
  - exact C.
  - now apply handleSendMessage_loading.
  - destruct (awaiting st) as [location|] eqn:A.
    + destruct (resume_settled w r st location A) as [E1 E2].
      unfold LoadingCoherent. rewrite E1, E2. split; [discriminate | congruence].
    + unfold handleSendMessage_resume. rewrite A. exact C.
  - rewrite handleTaskCompletion_eq. exact C.
Qed.

Lemma reachable_loading (st : State) : reachable st -> LoadingCoherent st.
Proof.
  induction 1 as [w|st e _ IH].
  - unfold LoadingCoherent. cbn. split; [discriminate | congruence].
  - now apply step_loading.
Qed.

(** X5.  In a session the loading flag is up exactly while a request is
    awaited, so at most one request is in flight: a submission made while
    loading is ignored, and once the request has settled, with an observation
    or with any failure, the flag is down. *)
Theorem single_request (st : State) :
  reachable st ->
  (isLoading st = true <-> awaiting st <> None)
  /\ (isLoading st = true -> forall w, handleSendMessage w st = st)
  /\ (forall w r, isLoading (handleSendMessage_resume w r st) = false
                  /\ awaiting (handleSendMessage_resume w r st) = None).
Proof.
  intros R. pose proof (reachable_loading st R) as C. split; [exact C|]. split.
  - intros HL w. unfold handleSendMessage. rewrite HL, orb_true_r. reflexivity.
  - intros w r. destruct (awaiting st) as [location|] eqn:A.
    + exact (resume_settled w r st location A).
    + unfold handleSendMessage_resume. rewrite A. split; [|exact A].
      destruct (isLoading st) eqn:HL; [|reflexivity].
      exfalso. exact (proj1 C HL A).
Qed.

Lemma single_request_witness :
  let w := mkWorld 1700000000123 0 (fun _ => 1 # 2) in
  let st := run (init w) [(w, InputChange (lit "Oslo")); (w, FormSubmit)] in
  handleSendMessage w (setInput (lit "250ml") st) = setInput (lit "250ml") st.
Proof.
  intros w st.
  refine (proj1 (proj2 (single_request (setInput (lit "250ml") st) _)) eq_refl w).
  exact (reachable_step _ (w, InputChange (lit "250ml"))
           (reachable_step _ (w, FormSubmit)
              (reachable_step _ (w, InputChange (lit "Oslo")) (reachable_init w)))).
Defined.

(** ** The chat log *)

Lemma handleSendMessage_appends (w : World) (st : State) :
  exists ms, messages (handleSendMessage w st) = messages st ++ ms
             /\ toasts (handleSendMessage w st) = toasts st.
Proof.
  unfold handleSendMessage.
  destruct (negb (truthy (trim (input st))) || isLoading st);
    [exists []; now rewrite app_nil_r|].
  destruct (matchLocation (trim (input st))); [eexists; split; reflexivity|].
  destruct (matchVolume (trim (input st))); [destruct (Qle_bool _ _)|];
    cbn; rewrite <- app_assoc; eexists; split; reflexivity.
Qed.

Lemma resume_appends (w : World) (r : Response) (st : State) :
  exists ms ts, messages (handleSendMessage_resume w r st) = messages st ++ ms
                /\ toasts (handleSendMessage_resume w r st) = toasts st ++ ts
                /\ Forall (fun m => type m = bot) ms.
Proof.
  destruct (awaiting st) as [location|] eqn:A.
  - destruct r as [t h d|status|].
    + rewrite (resume_success w t h d st location A). eexists _, [].
      cbn [messages toasts].
      split; [reflexivity|]. split; [symmetry; apply app_nil_r|]. repeat constructor.
    + destruct (resume_failure w (AxiosError status) st location eq_refl A)
        as (cs & ts & -> & _).
      eexists _, ts. cbn [messages toasts]. split; [reflexivity|]. split; [reflexivity|].
      apply Forall_map. apply Forall_forall. reflexivity.
    + destruct (resume_failure w OtherError st location eq_refl A) as (cs & ts & -> & _).
      eexists _, ts. cbn [messages toasts]. split; [reflexivity|]. split; [reflexivity|].
      apply Forall_map. apply Forall_forall. reflexivity.
  - unfold handleSendMessage_resume. rewrite A. exists [], [].
    rewrite !app_nil_r. repeat split. constructor.
Qed.

Lemma step_appends (st : State) (e : World * Event) :
  exists ms ts, messages (step st e) = messages st ++ ms
                /\ toasts (step st e) = toasts st ++ ts.
Proof.
  destruct e as [w [value| |r|taskId]]; cbn [step].
  - exists [], []. cbn. now rewrite !app_nil_r.
  - destruct (handleSendMessage_appends w st) as (ms & E1 & E2).
    exists ms, []. rewrite E1, E2, app_nil_r. split; reflexivity.
  - destruct (resume_appends w r st) as (ms & ts & E1 & E2 & _). eauto.
  - rewrite handleTaskCompletion_eq. cbn [messages toasts].
    exists [], (map ToastTaskDone (pendingAmounts taskId (waterTasks st))).
    rewrite app_nil_r. split; reflexivity.
Qed.

(** X6.  The chat is append-only, and so is the sequence of notifications:
    whatever events occur, the messages and notifications shown before are
    still there, in the same order, in front of the new ones. *)
Theorem chat_append_only (st : State) (evs : list (World * Event)) :
  exists ms ts, messages (run st evs) = messages st ++ ms
                /\ toasts (run st evs) = toasts st ++ ts.
Proof.
  unfold run. revert st. induction evs as [|e evs IH]; intros st; cbn [fold_left].
  - exists [], []. now rewrite !app_nil_r.
  - destruct (step_appends st e) as (ms1 & ts1 & E1 & E2).
    destruct (IH (step st e)) as (ms2 & ts2 & E3 & E4).
    exists (ms1 ++ ms2), (ts1 ++ ts2). rewrite E3, E4, E1, E2, <- !app_assoc.
    split; reflexivity.
Qed.

(** ** Blank lines and the send button *)

Lemma dropWhile_all (p : N -> bool) (s : jsstring) :
  forallb p s = true -> dropWhile p s = [].
Proof.
  induction s as [|c s IH]; cbn; [reflexivity|].
  intros H. apply andb_true_iff in H. destruct H as [-> H]. now apply IH.
Qed.

Lemma forallb_rev (p : N -> bool) (s : jsstring) :
  forallb p (List.rev s) = forallb p s.
Proof.
  apply eq_true_iff_eq. rewrite !forallb_forall. split; intros H c Hc; apply H.
  - now apply in_rev in Hc.
  - now apply in_rev.
Qed.

Lemma trim_blank_iff (s : jsstring) : trim s = [] <-> forallb isWhiteSpace s = true.
Proof.
  unfold trim. split.
  - intros E. apply (f_equal (@List.rev N)) in E. rewrite rev_involutive in E. cbn in E.
    apply dropWhile_nil in E. rewrite forallb_rev in E.
    pose proof (dropWhile_head isWhiteSpace s) as Hh.
    destruct (dropWhile isWhiteSpace s) as [|c r] eqn:D.
    + now apply dropWhile_nil.
    + cbn in E. rewrite Hh in E. discriminate.
  - intros H. rewrite (dropWhile_all _ _ H). reflexivity.
Qed.

Lemma trim_ends (s : jsstring) :
  match trim s with c :: _ => isWhiteSpace c = false | [] => True end
  /\ match List.rev (trim s) with c :: _ => isWhiteSpace c = false | [] => True end.
Proof.
  unfold trim. set (a := dropWhile isWhiteSpace s).
  set (b := dropWhile isWhiteSpace (List.rev a)). split.
  - pose proof (takeWhile_dropWhile isWhiteSpace (List.rev a)) as E. fold b in E.
    apply (f_equal (@List.rev N)) in E. rewrite rev_involutive, rev_app_distr in E.
    pose proof (dropWhile_head isWhiteSpace s) as Hh. fold a in Hh.
    destruct (List.rev b) as [|c r]; [exact I|].
    rewrite E in Hh. exact Hh.
  - rewrite rev_involutive. apply dropWhile_head.
Qed.

Lemma blank_not_truthy (s : jsstring) :
  negb (truthy (trim s)) = forallb isWhiteSpace s.
Proof.
  apply eq_true_iff_eq. rewrite <- trim_blank_iff.
  destruct (trim s); cbn; split; congruence.
Qed.

Lemma handleSendMessage_accepted (w : World) (st : State) :
  isLoading st = false -> truthy (trim (input st)) = true ->
  exists rest,
    messages (handleSendMessage w st)
    = messages st ++ userMsg w (trim (input st)) :: rest
    /\ input (handleSendMessage w st) = [].
Proof.
  intros HL Hne. unfold handleSendMessage. rewrite HL, Hne. cbn [negb orb].
  destruct (matchLocation (trim (input st))); [exists []; split; reflexivity|].
  destruct (matchVolume (trim (input st))); [destruct (Qle_bool _ _)|];
    cbn; rewrite <- app_assoc; eexists; split; reflexivity.
Qed.

(** X7.  A submission is ignored exactly when the send button is disabled,
    that is while a request is loading or when the input holds nothing but
    blanks. *)
Theorem send_guard (w : World) (st : State) :
  (sendDisabled st = true <-> handleSendMessage w st = st)
  /\ sendDisabled st = isLoading st || forallb isWhiteSpace (input st).
Proof.
  split; [|unfold sendDisabled; now rewrite blank_not_truthy].
  unfold sendDisabled. split.
  - intros D. unfold handleSendMessage. rewrite orb_comm, D. reflexivity.
  - intros E. destruct (isLoading st) eqn:HL; [reflexivity|].
    destruct (truthy (trim (input st))) eqn:T; [|reflexivity]. exfalso.
    destruct (handleSendMessage_accepted w st HL T) as (rest & M & _).
    rewrite E in M. apply (f_equal (@List.length Message)) in M.
    rewrite length_app in M. cbn in M. lia.
Qed.

(** X8.  An accepted submission empties the input field and echoes the line
    without the blanks around it: the echoed text is not empty and neither
    begins nor ends with a blank. *)
Theorem echo_trimmed (w : World) (st : State) :
  sendDisabled st = false ->
  (exists rest,
      messages (handleSendMessage w st)
      = messages st ++ userMsg w (trim (input st)) :: rest)
  /\ input (handleSendMessage w st) = []
  /\ trim (input st) <> []
  /\ match trim (input st) with c :: _ => isWhiteSpace c = false | [] => True end
  /\ match List.rev (trim (input st)) with c :: _ => isWhiteSpace c = false | [] => True end.
Proof.
  unfold sendDisabled. intros D. apply orb_false_iff in D. destruct D as [HL T].
  apply negb_false_iff in T.
  destruct (handleSendMessage_accepted w st HL T) as (rest & M & I).
  split; [eauto|]. split; [exact I|]. split; [now apply truthy_iff|].
  apply trim_ends.
Qed.

Lemma echo_trimmed_witness :
  let w := mkWorld 1700000000123 0 (fun _ => 1 # 2) in
  input (handleSendMessage w (setInput (lit "  250 ml ") (init w))) = [].
Proof.
  intros w.
  exact (proj1 (proj2 (echo_trimmed w (setInput (lit "  250 ml ") (init w)) eq_refl))).
Defined.

Lemma send_guard_witness :
  let w := mkWorld 1700000000123 0 (fun _ => 1 # 2) in
  handleSendMessage w (setInput (lit "   ") (init w)) = setInput (lit "   ") (init w).
Proof.
  intros w.
  exact (proj1 (proj1 (send_guard w (setInput (lit "   ") (init w)))) eq_refl).
Defined.

(** ** Sequences of task clicks *)

Lemma str_eqb_refl (a : jsstring) : str_eqb a a = true.
Proof. unfold str_eqb. destruct (jsstring_eq_dec a a); congruence. Qed.

Lemma str_eqb_eq (a b : jsstring) : str_eqb a b = true <-> a = b.
Proof. unfold str_eqb. destruct (jsstring_eq_dec a b); split; congruence. Qed.

Lemma clicked_In (ids : list jsstring) (t : WaterTask) :
  clicked ids t = true <-> In (id t) ids.
Proof.
  unfold clicked. rewrite existsb_exists. split.
  - intros (x & Hx & E). apply str_eqb_eq in E. now rewrite E.
  - intros H. exists (id t). split; [exact H | apply str_eqb_refl].
Qed.

Lemma click_sum (a : jsstring) (ids : list jsstring) (batch : list WaterTask) :
  Zsum (pendingAmounts a batch) + sumAmounts (pendingClicked ids (markCompleted a batch))
  = sumAmounts (pendingClicked (a :: ids) batch).
Proof.
  unfold pendingAmounts, pendingClicked, markCompleted, Zsum, sumAmounts, clicked.
  induction batch as [|t batch IH]; [reflexivity|].
  cbn [map filter existsb] in IH |- *.
  destruct (str_eqb (id t) a) eqn:Ea; cbn [id completed negb andb orb].
  - destruct (completed t); cbn [negb andb map fold_right]; lia.
  - destruct (negb (completed t) && existsb (str_eqb (id t)) ids);
      cbn [map fold_right]; lia.
Qed.

Lemma click_count (a : jsstring) (ids : list jsstring) (batch : list WaterTask) :
  (List.length (pendingAmounts a batch)
   + List.length (pendingClicked ids (markCompleted a batch)))%nat
  = List.length (pendingClicked (a :: ids) batch).
Proof.
  unfold pendingAmounts, pendingClicked, markCompleted, clicked.
  induction batch as [|t batch IH]; [reflexivity|].
  cbn [map filter existsb] in IH |- *.
  destruct (str_eqb (id t) a) eqn:Ea; cbn [id completed negb andb orb].
  - destruct (completed t); cbn [negb andb map List.length]; lia.
  - destruct (negb (completed t) && existsb (str_eqb (id t)) ids);
      cbn [map List.length]; lia.
Qed.

Lemma click_mark (a : jsstring) (ids : list jsstring) (batch : list WaterTask) :
  markClicked ids (markCompleted a batch) = markClicked (a :: ids) batch.
Proof.
  unfold markClicked, markCompleted, clicked. rewrite map_map.
  apply map_ext. intros t. cbn [existsb].
  destruct (str_eqb (id t) a); cbn [id time amount completed orb]; [|reflexivity].
  destruct (existsb (str_eqb (id t)) ids); reflexivity.
Qed.

Lemma clickAll_eq (ids : list jsstring) (st : State) :
  waterIntake (clickAll ids st)
  = waterIntake st + sumAmounts (pendingClicked ids (waterTasks st))
  /\ waterTasks (clickAll ids st) = markClicked ids (waterTasks st)
  /\ List.length (toasts (clickAll ids st))
     = (List.length (toasts st) + List.length (pendingClicked ids (waterTasks st)))%nat
  /\ messages (clickAll ids st) = messages st
  /\ dailyGoal (clickAll ids st) = dailyGoal st.
Proof.
  unfold clickAll. revert st. induction ids as [|a ids IH]; intros st; cbn [fold_left].
  - assert (E : pendingClicked [] (waterTasks st) = []).
    { unfold pendingClicked, clicked. cbn [existsb].
      induction (waterTasks st) as [|t l IHl]; [reflexivity|].
      cbn [filter]. rewrite andb_false_r. exact IHl. }
    rewrite E. unfold markClicked, clicked. cbn [existsb sumAmounts fold_right List.length].
    rewrite map_id. repeat split; lia.
  - destruct (IH (handleTaskCompletion a st)) as (I1 & I2 & I3 & I4 & I5).
    rewrite I1, I2, I3, I4, I5, handleTaskCompletion_eq.
    cbn [waterIntake waterTasks toasts messages dailyGoal]. unfold completeTask.
    cbn [fst snd]. rewrite length_app, length_map.
    rewrite <- (click_sum a ids), <- (click_count a ids), (click_mark a ids).
    repeat split; lia.
Qed.

(** X9.  However the task buttons are clicked - any ids, in any order, with
    repetitions - the intake grows by the amounts of the tasks that were
    pending and got clicked, each counted once; these tasks end up completed,
    one notification is shown for each, and the chat and the goal are not
    touched. *)
Theorem clicks_count_once (ids : list jsstring) (st : State) :
  waterIntake (clickAll ids st)
  = waterIntake st + sumAmounts (pendingClicked ids (waterTasks st))
  /\ waterTasks (clickAll ids st) = markClicked ids (waterTasks st)
  /\ List.length (toasts (clickAll ids st))
     = (List.length (toasts st) + List.length (pendingClicked ids (waterTasks st)))%nat
  /\ messages (clickAll ids st) = messages st
  /\ dailyGoal (clickAll ids st) = dailyGoal st.
Proof. exact (clickAll_eq ids st). Qed.

Lemma filter_all {A : Type} (p : A -> bool) (l : list A) :
  (forall x, In x l -> p x = true) -> filter p l = l.
Proof.
  induction l as [|x l IH]; intros H; [reflexivity|]. cbn [filter].
  rewrite (H x (or_introl eq_refl)), IH; [reflexivity|]. intros; apply H; cbn; auto.
Qed.

(** X10.  Clicking every task of a freshly generated batch, in any order,
    adds eight times the rounded eighth of the goal and completes the whole
    batch; the sum lies between the goal minus 3 and the goal plus 4, so a
    finished schedule can leave the intake short of the goal. *)
Theorem whole_schedule (w : World) (g : Z) (ids : list jsstring) (st : State) :
  waterTasks st = generateTasks w g ->
  (forall t, In t (generateTasks w g) -> In (id t) ids) ->
  waterIntake (clickAll ids st) = waterIntake st + 8 * amountPerTask g
  /\ g - 3 <= 8 * amountPerTask g <= g + 4
  /\ Forall (fun t => completed t = true) (waterTasks (clickAll ids st))
  /\ List.length (waterTasks (clickAll ids st)) = 8%nat.
Proof.
  intros E Hall. destruct (clickAll_eq ids st) as (I1 & I2 & _).
  rewrite I1, I2, E.
  assert (P : pendingClicked ids (generateTasks w g) = generateTasks w g).
  { apply filter_all. intros t Ht.
    pose proof (generateTasks_fields w g) as F. rewrite Forall_forall in F.
    destruct (F t Ht) as [-> _]. cbn [negb andb]. apply clicked_In. exact (Hall t Ht). }
  rewrite P, (sumAmounts_uniform (amountPerTask g)).
  - rewrite generateTasks_length. split; [lia|]. split; [apply amountPerTask_bounds|].
    split.
    + unfold markClicked. apply Forall_map, Forall_forall. intros t Ht.
      rewrite (proj2 (clicked_In ids t) (Hall t Ht)). reflexivity.
    + unfold markClicked. rewrite length_map. apply generateTasks_length.
  - eapply Forall_impl; [|apply generateTasks_fields]. intros t [_ H]. exact H.
Qed.

Lemma whole_schedule_witness :
  let w := mkWorld 1700000000123 0 (fun _ => 1 # 2) in
  let ids := map (fun i => lit "task-" ++ Number_toString i) [3; 0; 7; 1; 2; 6; 5; 4; 3]%nat in
  let st := mkState [] [] false None 0 2003 (generateTasks w 2003) [] [] None in
  waterIntake (clickAll ids st) = waterIntake st + 8 * amountPerTask 2003.
Proof.
  intros w ids st.
  refine (proj1 (whole_schedule w 2003 ids st eq_refl _)).
  intros t Ht. apply (in_map id) in Ht.
  apply (Permutation_in _ (Permutation_sym (generateTasks_ids_perm w 2003))) in Ht.
  apply in_map_iff in Ht. destruct Ht as (i & <- & Hi). apply in_seq in Hi.
  unfold ids. apply (in_map (fun i => lit "task-" ++ Number_toString i)).
  do 8 (destruct i as [|i]; [cbn; tauto|]). lia.
Defined.

(** ** The panel and the stored observation *)

Lemma handleSendMessage_frame (w : World) (st : State) :
  weather (handleSendMessage w st) = weather st
  /\ currentLocation (handleSendMessage w st) = currentLocation st.
Proof.
  unfold handleSendMessage.
  destruct (negb (truthy (trim (input st))) || isLoading st); [split; reflexivity|].
  destruct (matchLocation (trim (input st))); [split; reflexivity|].
  destruct (matchVolume (trim (input st))); [destruct (Qle_bool _ _)|]; split; reflexivity.
Qed.

Lemma Consistent_amounts (st : State) :
  Consistent st -> Forall (fun t => 0 <= amount t) (waterTasks st).
Proof.
  intros (W & _ & _). destruct (weather st) as [wd|].
  - destruct W as (G & _ & F). eapply Forall_impl; [|exact F].
    intros t ->. apply amountPerTask_nonneg. rewrite G. apply roundedIntake_ge_2000.
  - destruct W as (_ & -> & _). constructor.
Qed.

Lemma step_consistent (st : State) (e : World * Event) :
  Consistent st -> Consistent (step st e).
Proof.
  intros C. pose proof (Consistent_amounts st C) as Am.
  destruct e as [w [value| |r|taskId]]; cbn [step].
  - exact C.
  - destruct (handleSendMessage_keeps w st) as (E1 & E2 & E3).
    destruct (handleSendMessage_frame w st) as (E4 & E5).
    unfold Consistent in *. rewrite E1, E2, E4, E5.
    destruct C as (W & N & I). repeat split; [exact W | exact N | lia].
  - destruct (awaiting st) as [location|] eqn:A;
      [|unfold handleSendMessage_resume; rewrite A; exact C].
    destruct C as (W & N & I).
    destruct r as [t h d|status|].
    + rewrite (resume_success w t h d st location A). unfold Consistent.
      cbn [weather dailyGoal waterTasks currentLocation waterIntake].
      repeat split; try assumption.
      * apply generateTasks_length.
      * eapply Forall_impl; [|apply generateTasks_fields]. intros a [_ H]. exact H.
      * apply generateTasks_NoDup.
    + destruct (resume_failure w (AxiosError status) st location eq_refl A)
        as (cs & ts & -> & _).
      unfold Consistent. cbn [weather dailyGoal waterTasks currentLocation waterIntake].
      repeat split; assumption.
    + destruct (resume_failure w OtherError st location eq_refl A) as (cs & ts & -> & _).
      unfold Consistent. cbn [weather dailyGoal waterTasks currentLocation waterIntake].
      repeat split; assumption.
  - destruct C as (W & N & I). rewrite handleTaskCompletion_eq. unfold Consistent, completeTask.
    cbn [weather dailyGoal waterTasks currentLocation waterIntake fst snd].
    destruct (markCompleted_map taskId (waterTasks st)) as (Mi & Ma & _).
    split; [|split].
    + destruct (weather st) as [wd|].
      * destruct W as (G & L & F). split; [exact G|]. split.
        -- unfold markCompleted. now rewrite length_map.
        -- rewrite <- (Forall_map amount (fun a => a = amountPerTask (dailyGoal st))) in *.
           rewrite Ma. exact F.
      * destruct W as (G & T & L). rewrite T. repeat split; assumption.
    + rewrite Mi. exact N.
    + pose proof (Zsum_nonneg _ (pendingAmounts_nonneg taskId _ Am)). lia.
Qed.

Lemma reachable_consistent (st : State) : reachable st -> Consistent st.
Proof.
  induction 1 as [w|st e _ IH].
  - unfold Consistent. cbn. repeat split; [constructor | lia].
  - now apply step_consistent.
Qed.

(** X11.  Throughout a session the panel is coherent with the stored
    observation.  Before the first observation the goal is 2000, there is no
    task and no location; afterwards the goal is the one computed from the
    stored observation and the batch has eight tasks of the rounded eighth of
    that goal each.  The task ids are always distinct and the intake is never
    negative. *)
Theorem session_consistent (st : State) :
  reachable st ->
  match weather st with
  | None => dailyGoal st = 2000 /\ waterTasks st = [] /\ currentLocation st = []
  | Some weatherData =>
      dailyGoal st = roundedIntake weatherData
      /\ List.length (waterTasks st) = 8%nat
      /\ Forall (fun t => amount t = amountPerTask (dailyGoal st)) (waterTasks st)
  end
  /\ NoDup (map id (waterTasks st))
  /\ 0 <= waterIntake st.
Proof. intros R. exact (reachable_consistent st R). Qed.

(** After the Paris observation, a task click and a logged volume: the
    observation is stored and the panel shows its goal and eight tasks. *)
Lemma session_consistent_witness :
  let w := mkWorld 1700000000123 0 (fun _ => 1 # 2) in
  let st :=
    run (init w)
      [(w, InputChange (lit "Paris")); (w, FormSubmit);
       (w, FetchSettled (Fulfilled 30 70 (lit "clear sky")));
       (w, TaskClick (lit "task-3")); (w, InputChange (lit "300 ml")); (w, FormSubmit)] in
  let weatherData := mkWeatherData 30 70 (lit "clear sky") in
  (weather st = Some weatherData /\ dailyGoal st = 2450 /\ waterIntake st = 606)
  /\ (dailyGoal st = roundedIntake weatherData
      /\ List.length (waterTasks st) = 8%nat
      /\ Forall (fun t => amount t = amountPerTask (dailyGoal st)) (waterTasks st))
  /\ NoDup (map id (waterTasks st))
  /\ 0 <= waterIntake st.
Proof.
  intros w st weatherData.
  assert (R : reachable st).
  { exact (reachable_step _ (w, FormSubmit)
             (reachable_step _ (w, InputChange (lit "300 ml"))
                (reachable_step _ (w, TaskClick (lit "task-3"))
                   (reachable_step _ (w, FetchSettled (Fulfilled 30 70 (lit "clear sky")))
                      (reachable_step _ (w, FormSubmit)
                         (reachable_step _ (w, InputChange (lit "Paris"))
                            (reachable_init w))))))). }
  assert (Ew : weather st = Some weatherData) by (vm_compute; reflexivity).
  split; [repeat split; vm_compute; reflexivity|].
  pose proof (session_consistent st R) as H. rewrite Ew in H. exact H.
Defined.

Lemma NoDup_ids_eq (l : list WaterTask) (t u : WaterTask) :
  NoDup (map id l) -> In t l -> In u l -> id u = id t -> u = t.
Proof.
  induction l as [|x l IH]; cbn [map]; intros N Ht Hu E; [destruct Ht|].
  inversion N as [|? ? Nx Nl]; subst.
  destruct Ht as [<-|Ht], Hu as [<-|Hu].
  - reflexivity.
  - exfalso. apply Nx. rewrite <- E. now apply in_map.
  - exfalso. apply Nx. rewrite E. now apply in_map.
  - now apply IH.
Qed.

Lemma filter_none {A : Type} (p : A -> bool) (l : list A) :
  (forall x, In x l -> p x = false) -> filter p l = [].
Proof.
  induction l as [|x l IH]; intros H; [reflexivity|]. cbn [filter].
  rewrite (H x (or_introl eq_refl)). apply IH. intros; apply H; cbn; auto.
Qed.

Lemma pendingAmounts_single (l : list WaterTask) (t : WaterTask) :
  NoDup (map id l) -> In t l -> completed t = false ->
  pendingAmounts (id t) l = [amount t].
Proof.
  unfold pendingAmounts. induction l as [|x l IH]; cbn [map filter]; intros N Ht C;
    [destruct Ht|].
  inversion N as [|? ? Nx Nl]; subst.
  destruct Ht as [->|Ht].
  - rewrite str_eqb_refl, C. cbn [negb andb map]. f_equal.
    rewrite filter_none; [reflexivity|].
    intros u Hu. destruct (str_eqb (id u) (id t)) eqn:E; [|reflexivity].
    exfalso. apply str_eqb_eq in E. apply Nx. rewrite <- E. now apply in_map.
  - destruct (str_eqb (id x) (id t)) eqn:E.
    + exfalso. apply str_eqb_eq in E. apply Nx. rewrite E. now apply in_map.
    + cbn [andb]. now apply IH.
Qed.

(** X12.  In a session, a click on the enabled button of a task - a task of
    the batch that is not completed - adds exactly the amount of that task to
    the intake and shows one notification; that task is completed afterwards
    and every other task of the batch is left as it was. *)
Theorem task_click_enabled (st : State) (t : WaterTask) :
  reachable st ->
  In t (waterTasks st) ->
  taskButtonDisabled t = false ->
  waterIntake (handleTaskCompletion (id t) st) = waterIntake st + amount t
  /\ toasts (handleTaskCompletion (id t) st) = toasts st ++ [ToastTaskDone (amount t)]
  /\ In (mkWaterTask (id t) (time t) (amount t) true)
       (waterTasks (handleTaskCompletion (id t) st))
  /\ (forall u, In u (waterTasks st) -> u <> t ->
        In u (waterTasks (handleTaskCompletion (id t) st)))
  /\ List.length (waterTasks (handleTaskCompletion (id t) st))
     = List.length (waterTasks st).
Proof.
  intros R Ht D. unfold taskButtonDisabled in D.
  destruct (reachable_consistent st R) as (_ & N & _).
  rewrite handleTaskCompletion_eq. unfold completeTask.
  cbn [waterIntake toasts waterTasks fst snd].
  rewrite (pendingAmounts_single _ t N Ht D). cbn [map Zsum fold_right].
  split; [lia|]. split; [reflexivity|]. unfold markCompleted. split; [|split].
  - apply in_map_iff. exists t. rewrite str_eqb_refl. auto.
  - intros u Hu Hne. apply in_map_iff. exists u. split; [|exact Hu].
    destruct (str_eqb (id u) (id t)) eqn:E; [|reflexivity].
    apply str_eqb_eq in E. destruct (Hne (NoDup_ids_eq _ t u N Ht Hu E)).
  - apply length_map.
Qed.

Lemma task_click_enabled_witness :
  let w := mkWorld 1700000000123 0 (fun _ => 1 # 2) in
  let g := roundedIntake (mkWeatherData (Math_round 30) 70 (lit "clear sky")) in
  let st :=
    run (init w)
      [(w, InputChange (lit "Paris")); (w, FormSubmit);
       (w, FetchSettled (Fulfilled 30 70 (lit "clear sky")))] in
  let t := loopTask w g 0 in
  waterIntake (handleTaskCompletion (id t) st) = waterIntake st + amount t.
Proof.
  intros w g st t.
  assert (R : reachable st).
  { exact (reachable_step _ (w, FetchSettled (Fulfilled 30 70 (lit "clear sky")))
             (reachable_step _ (w, FormSubmit)
                (reachable_step _ (w, InputChange (lit "Paris")) (reachable_init w)))). }
  refine (proj1 (task_click_enabled st t R _ eq_refl)).
  assert (A : awaiting (handleSendMessage w (setInput (lit "Paris") (init w)))
              = Some (lit "Paris")) by reflexivity.
  unfold st, run. cbn [fold_left step].
  rewrite (resume_success w 30 70 (lit "clear sky") _ (lit "Paris") A).
  cbn [waterTasks]. fold g.
  apply (Permutation_in _ (generateTasks_perm w g)).
  cbn [seq map]. left. reflexivity.
Defined.

Lemma resume_noObservation (w : World) (r : Response) (st : State) :
  noObservation (FetchSettled r) ->
  dailyGoal (handleSendMessage_resume w r st) = dailyGoal st
  /\ weather (handleSendMessage_resume w r st) = weather st
  /\ currentLocation (handleSendMessage_resume w r st) = currentLocation st
  /\ waterTasks (handleSendMessage_resume w r st) = waterTasks st.
Proof.
  intros H. destruct (awaiting st) as [location|] eqn:A;
    [|unfold handleSendMessage_resume; rewrite A; repeat split].
  destruct r as [t h d|status|]; [destruct H| |].
  - destruct (resume_failure w (AxiosError status) st location eq_refl A)
      as (cs & ts & -> & _). repeat split.
  - destruct (resume_failure w OtherError st location eq_refl A) as (cs & ts & -> & _).
    repeat split.
Qed.

(** X13.  Only the arrival of an observation changes the goal, the stored
    observation, the location and the schedule: every other event - typing,
    a submission, a failed request, a task click - leaves them alone, a task
    click changing completion flags only. *)
Theorem observation_only (st : State) (w : World) (ev : Event) :
  noObservation ev ->
  dailyGoal (step st (w, ev)) = dailyGoal st
  /\ weather (step st (w, ev)) = weather st
  /\ currentLocation (step st (w, ev)) = currentLocation st
  /\ map id (waterTasks (step st (w, ev))) = map id (waterTasks st)
  /\ map time (waterTasks (step st (w, ev))) = map time (waterTasks st)
  /\ map amount (waterTasks (step st (w, ev))) = map amount (waterTasks st).
Proof.
  intros H. destruct ev as [value| |r|taskId]; cbn [step].
  - repeat split.
  - destruct (handleSendMessage_keeps w st) as (E1 & E2 & _).
    destruct (handleSendMessage_frame w st) as (E3 & E4).
    rewrite E1, E2, E3, E4. repeat split.
  - destruct (resume_noObservation w r st H) as (E1 & E2 & E3 & E4).
    rewrite E1, E2, E3, E4. repeat split.
  - rewrite handleTaskCompletion_eq. unfold completeTask.
    cbn [dailyGoal weather currentLocation waterTasks fst].
    destruct (markCompleted_map taskId (waterTasks st)) as (Mi & Ma & Mt & _).
    rewrite Mi, Ma, Mt. repeat split.
Qed.

(** After the Paris observation: a request for "Atlantis" that fails with
    404, and a task click, leave the goal at 2450 and the observation
    stored. *)
Lemma observation_only_witness :
  let w := mkWorld 1700000000123 0 (fun _ => 1 # 2) in
  let st :=
    run (init w)
      [(w, InputChange (lit "Paris")); (w, FormSubmit);
       (w, FetchSettled (Fulfilled 30 70 (lit "clear sky")))] in
  let st1 := run st [(w, InputChange (lit "Atlantis")); (w, FormSubmit)] in
  (dailyGoal st = 2450 /\ awaiting st1 = Some (lit "Atlantis")
   /\ toasts (step st1 (w, FetchSettled (AxiosError (Some 404)))) = [ToastNotFound]
   /\ waterIntake (step st (w, TaskClick (lit "task-3"))) = 306)
  /\ dailyGoal (step st1 (w, FetchSettled (AxiosError (Some 404)))) = dailyGoal st1
  /\ weather (step st (w, TaskClick (lit "task-3"))) = weather st
  /\ map amount (waterTasks (step st (w, TaskClick (lit "task-3"))))
     = map amount (waterTasks st).
Proof.
  intros w st st1.
  split; [repeat split; vm_compute; reflexivity|]. split; [|split].
  - exact (proj1 (observation_only st1 w (FetchSettled (AxiosError (Some 404))) I)).
  - exact (proj1 (proj2 (observation_only st w (TaskClick (lit "task-3")) I))).
  - exact (proj2 (proj2 (proj2 (proj2 (proj2
             (observation_only st w (TaskClick (lit "task-3")) I)))))).
Defined.

(** ** The classifier, conversely *)

(** X14.  A line is taken for a volume only if it holds digits followed,
    after blanks only, by ml, ML or mL, and then the amount is the value of
    its first digit run; a line is taken for a location only if it is not
    empty and made of letters a-z, A-Z and blanks, and the location is the
    line itself.  No line is both: the order of the two tests does not
    matter. *)
Theorem classify_only :
  (forall s n, classify s = VolumeLog n ->
     VolumePattern s /\ exists run, FirstDigitRun s run /\ n = parseInt run)
  /\ (forall s name, classify s = Location name ->
        name = s /\ s <> []
        /\ Forall (fun c => isAsciiLetter c = true \/ isWhiteSpace c = true) s)
  /\ (forall s, matchLocation s = true -> matchVolume s = false).
Proof.
  split; [|split].
  - intros s n. unfold classify.
    destruct (matchLocation s); [discriminate|].
    destruct (matchVolume s) eqn:MV; [|discriminate].
    intros [= <-]. split; [now apply matchVolume_spec|].
    destruct (volume_amount s MV) as (run & _ & F & _ & A). eauto.
  - intros s name. unfold classify.
    destruct (matchLocation s) eqn:ML;
      [|destruct (matchVolume s); discriminate].
    intros [= <-]. apply matchLocation_iff in ML. destruct ML. auto.
  - intros s ML. destruct (matchVolume s) eqn:MV; [|reflexivity].
    apply matchVolume_spec, VolumePattern_has_digit, digit_not_location in MV. congruence.
Qed.

Lemma classify_only_witness :
  VolumePattern (lit "had 2 glasses, 500 mL") /\ matchVolume (lit "New York") = false.
Proof.
  split.
  - exact (proj1 (proj1 classify_only (lit "had 2 glasses, 500 mL") 2 eq_refl)).
  - exact (proj2 (proj2 classify_only) (lit "New York") eq_refl).
Defined.

(** ** Decimal numerals *)

Lemma uint_digits (d : Decimal.uint) :
  forallb isDigit (lit (DecimalString.NilEmpty.string_of_uint d)) = true.
Proof. induction d; [reflexivity | exact IHd ..]. Qed.

Lemma uint_value (d : Decimal.uint) (acc : nat) :
  fold_left (fun a c => a * 10 + digitValue c)
    (lit (DecimalString.NilEmpty.string_of_uint d)) (Z.of_nat acc)
  = Z.of_nat (Nat.of_uint_acc d acc).
Proof.
  revert acc. induction d; intros acc; [reflexivity|..];
    cbn [DecimalString.NilEmpty.string_of_uint Nat.of_uint_acc];
    rewrite <- IHd, Nat.tail_mul_spec; unfold lit;
    cbn [list_ascii_of_string map fold_left]; f_equal;
    match goal with
    | |- context [digitValue ?c] =>
        let v := eval vm_compute in (digitValue c) in change (digitValue c) with v
    end; lia.
Qed.

Lemma to_uint_not_Nil (n : nat) : Nat.to_uint n <> Decimal.Nil.
Proof.
  intros E. pose proof (DecimalNat.Unsigned.of_to n) as H. rewrite E in H.
  cbn in H. subst n. discriminate E.
Qed.

Lemma Number_toString_digits (n : nat) :
  Number_toString n <> []
  /\ forallb isDigit (Number_toString n) = true
  /\ fold_left (fun a c => a * 10 + digitValue c) (Number_toString n) 0 = Z.of_nat n.
Proof.
  unfold Number_toString, DecimalString.NilZero.string_of_uint.
  pose proof (to_uint_not_Nil n) as NN.
  pose proof (uint_digits (Nat.to_uint n)) as D.
  pose proof (uint_value (Nat.to_uint n) 0) as V.
  fold (Nat.of_uint (Nat.to_uint n)) in V. rewrite DecimalNat.Unsigned.of_to in V.
  destruct (Nat.to_uint n); try contradiction; (split; [discriminate | split; assumption]).
Qed.

Lemma takeWhile_app_stop (p : N -> bool) (ds rest : jsstring) :
  forallb p ds = true ->
  match rest with c :: _ => p c = false | [] => True end ->
  takeWhile p (ds ++ rest) = ds.
Proof.
  intros H R. induction ds as [|c ds IH]; cbn.
  - destruct rest as [|c r]; [reflexivity|]. cbn. now rewrite R.
  - cbn in H. apply andb_true_iff in H. destruct H as [-> H]. now rewrite IH.
Qed.

(** X15.  Typing a natural number in decimal, then blanks or none, then ml,
    ML or mL, whatever follows, logs exactly that number. *)
Theorem typed_number_logs (n : nat) (ws u post : jsstring) :
  forallb isWhiteSpace ws = true ->
  isUnit u ->
  classify (Number_toString n ++ ws ++ u ++ post) = VolumeLog (Z.of_nat n)
  /\ classify (Number_toString n) = Unrecognized.
Proof.
  intros Hws Hu. destruct (Number_toString_digits n) as (Hne & Hd & Hv).
  assert (Stop : match ws ++ u ++ post with c :: _ => isDigit c = false | [] => True end).
  { destruct ws as [|c ws].
    - destruct (isUnit_head u post Hu) as (c & r & -> & _ & Hc). exact Hc.
    - cbn in Hws |- *. apply andb_true_iff in Hws. destruct Hws as [Hc _].
      destruct (isDigit c) eqn:E; [|reflexivity].
      pose proof (digit_not_letter_or_blank c E) as F. rewrite Hc, orb_true_r in F.
      discriminate. }
  split.
  - assert (P : VolumePattern (Number_toString n ++ ws ++ u ++ post)).
    { exists [], (Number_toString n), ws, u, post. auto. }
    pose proof (digit_not_location _ (VolumePattern_has_digit _ P)) as ML.
    apply matchVolume_spec in P.
    unfold classify. rewrite ML, P. f_equal.
    unfold loggedAmount, firstDigitRun.
    destruct (Number_toString n) as [|c ds] eqn:E; [contradiction|].
    cbn in Hd. apply andb_true_iff in Hd. destruct Hd as [Hc Hds].
    cbn [app dropWhile]. rewrite Hc. cbn [negb].
    change (c :: ds ++ ws ++ u ++ post) with ((c :: ds) ++ ws ++ u ++ post).
    rewrite (takeWhile_app_stop isDigit (c :: ds) _); [|cbn; now rewrite Hc, Hds|exact Stop].
    cbn [orDefault]. unfold parseInt.
    rewrite takeWhile_id by (cbn; now rewrite Hc, Hds). exact Hv.
  - unfold classify.
    assert (HD : existsb isDigit (Number_toString n) = true).
    { destruct (Number_toString n) as [|c ds]; [contradiction|].
      cbn in Hd |- *. apply andb_true_iff in Hd. destruct Hd as [-> _]. reflexivity. }
    rewrite (digit_not_location _ HD).
    destruct (matchVolume (Number_toString n)) eqn:MV; [|reflexivity].
    exfalso. apply matchVolume_spec in MV.
    destruct MV as (pre & ds & ws' & u' & post' & E & _ & _ & _ & Hu').
    destruct (isUnit_head u' post' Hu') as (c & r & Ec & _ & Hc).
    assert (Hin : In c (Number_toString n)).
    { rewrite E, Ec. rewrite !in_app_iff. right. right. right. left. reflexivity. }
    rewrite forallb_forall in Hd. rewrite (Hd c Hin) in Hc. discriminate.
Qed.

Lemma typed_number_logs_witness :
  classify (Number_toString 1250 ++ lit " " ++ lit "mL" ++ lit " of water")
  = VolumeLog (Z.of_nat 1250).
Proof.
  refine (proj1 (typed_number_logs 1250 (lit " ") (lit "mL") (lit " of water") eq_refl _)).
  right. right. reflexivity.
Defined.

(** ** The percentage of the progress message *)

(** X16.  In a session, with a goal of at most 2^46, when a logged volume
    leaves the intake below the goal, the progress message reports the
    amount, the new intake and a percentage between 0 and 100; the percentage
    is 100 as soon as the intake exceeds 99.5 percent of the goal, and at most
    99 below that mark. *)
Theorem progress_percent (w : World) (st : State) :
  reachable st ->
  isLoading st = false ->
  matchVolume (trim (input st)) = true ->
  dailyGoal st <= 2 ^ 46 ->
  waterIntake st + loggedAmount (trim (input st)) < dailyGoal st ->
  exists p,
    messages (handleSendMessage w st)
    = messages st
      ++ [userMsg w (trim (input st));
          botMsg w (Logged (loggedAmount (trim (input st)))
                      (waterIntake st + loggedAmount (trim (input st))) p)]
    /\ 0 <= p <= 100
    /\ (199 * dailyGoal st < 200 * (waterIntake st + loggedAmount (trim (input st))) ->
        p = 100)
    /\ (200 * (waterIntake st + loggedAmount (trim (input st))) < 199 * dailyGoal st ->
        p <= 99).
Proof.
  intros R HL MV Hmax Hlt.
  pose proof (matchVolume_nonempty _ MV) as Hne.
  pose proof MV as ML.
  apply matchVolume_spec, VolumePattern_has_digit, digit_not_location in ML.
  destruct (reachable_consistent st R) as (_ & _ & I).
  pose proof (reachable_Inv st R) as [G _].
  pose proof (loggedAmount_nonneg (trim (input st))) as An.
  set (amount := loggedAmount (trim (input st))) in *.
  set (total := waterIntake st + amount) in *.
  assert (Hg : 0 < dailyGoal st <= 2 ^ 53) by lia.
  set (progress := fmul (fdiv (inject_Z total) (inject_Z (dailyGoal st))) 100).
  pose proof (below_goal_progress total (dailyGoal st) Hg Hlt) as Up. fold progress in Up.
  assert (Lo : (0 <= progress)%Q).
  { apply (fl_mono 0). apply Qmult_le_0_compat; [|discriminate].
    apply (fl_mono 0). apply Qle_shift_div_l.
    - change 0%Q with (inject_Z 0). rewrite <- Zlt_Qlt. lia.
    - rewrite Qmult_0_l. change 0%Q with (inject_Z 0). rewrite <- Zle_Qle. lia. }
  exists (Math_round progress). split.
  - unfold handleSendMessage. rewrite HL, Hne, ML, MV. cbn [negb orb].
    fold amount. fold total.
    rewrite (goal_reached_double total (dailyGoal st) Hg).
    destruct (Z.leb_spec (dailyGoal st) total) as [?|_]; [lia|].
    unfold addBotMessage, setMessages, setWaterIntake, setInput. cbn [messages].
    rewrite <- app_assoc. reflexivity.
  - assert (P100 : Math_round progress <= 100).
    { apply (Math_round_mono _ _) in Up.
      assert (E : Math_round (100 - pow2 (-46)) = 100) by (vm_compute; reflexivity).
      lia. }
    split; [split; [|exact P100]|split].
    + apply (Math_round_mono 0) in Lo.
      assert (E : Math_round 0 = 0) by reflexivity. lia.
    + intros H.
      assert (Q1 : (inject_Z 199 / inject_Z 200
                    <= inject_Z total / inject_Z (dailyGoal st))%Q)
        by (apply quotient_le; lia).
      assert (B : (fmul (fdiv (inject_Z 199) (inject_Z 200)) 100 <= progress)%Q)
        by (apply fmul_mono; [discriminate | apply fl_mono; exact Q1]).
      apply Math_round_mono in B.
      assert (E : Math_round (fmul (fdiv (inject_Z 199) (inject_Z 200)) 100) = 100)
        by (vm_compute; reflexivity).
      lia.
    + intros H.
      assert (Q1 : (inject_Z total / inject_Z (dailyGoal st)
                    <= inject_Z (199 * 2 ^ 46 - 1) / inject_Z (200 * 2 ^ 46))%Q)
        by (apply quotient_le; lia).
      assert (B : (progress
                   <= fmul (fdiv (inject_Z (199 * 2 ^ 46 - 1)) (inject_Z (200 * 2 ^ 46))) 100)%Q)
        by (apply fmul_mono; [discriminate | apply fl_mono; exact Q1]).
      apply Math_round_mono in B.
      assert (E : Math_round
                    (fmul (fdiv (inject_Z (199 * 2 ^ 46 - 1)) (inject_Z (200 * 2 ^ 46))) 100)
                  = 99) by (vm_compute; reflexivity).
      lia.
Qed.

Lemma progress_percent_witness :
  let w := mkWorld 1700000000123 0 (fun _ => 1 # 2) in
  let st := setInput (lit "1995ml") (init w) in
  exists p,
    messages (handleSendMessage w st)
    = messages st
      ++ [userMsg w (trim (input st));
          botMsg w (Logged (loggedAmount (trim (input st)))
                      (waterIntake st + loggedAmount (trim (input st))) p)]
    /\ p = 100.
Proof.
  intros w st.
  destruct (progress_percent w st
              (reachable_step _ (w, InputChange (lit "1995ml")) (reachable_init w))
              eq_refl eq_refl ltac:(discriminate) eq_refl) as (p & M & _ & H100 & _).
  exists p. split; [exact M | apply H100; reflexivity].
Defined.

(** ** The rounded temperature *)

Lemma Math_round_nearest (x : Q) :
  (inject_Z (Math_round x) <= x + (1 # 2))%Q /\ (x - (1 # 2) < inject_Z (Math_round x))%Q.
Proof.
  unfold Math_round.
  pose proof (Qfloor_le (x + (1 # 2))) as L. pose proof (Qlt_floor (x + (1 # 2))) as U.
  rewrite inject_Z_plus in U. change (inject_Z 1) with 1%Q in U. split; lra.
Qed.

Lemma Math_round_below (x : Q) : (x < 51 # 2)%Q -> Math_round x <= 25.
Proof.
  intros H. destruct (Math_round_nearest x) as [A B].
  assert (C : (inject_Z (Math_round x) < inject_Z 26)%Q)
    by (change (inject_Z 26) with 26%Q; lra).
  rewrite <- Zlt_Qlt in C. lia.
Qed.

Lemma Math_round_above (x : Q) : (51 # 2 <= x)%Q -> 26 <= Math_round x.
Proof.
  intros H. destruct (Math_round_nearest x) as [A B].
  assert (C : (inject_Z 25 < inject_Z (Math_round x))%Q)
    by (change (inject_Z 25) with 25%Q; lra).
  rewrite <- Zlt_Qlt in C. lia.
Qed.

(** X17.  The temperature of the service is rounded to the nearest degree
    before it is stored and used: the stored value is within half a degree of
    the reported one, the temperature surcharge starts at 25.5 degrees
    reported - below it, with humidity at most 60, the goal is 2000 - and from
    there on the goal is at least 2050. *)
Theorem temperature_rounding (w : World) (t : Q) (h : Z) (d : jsstring) (st : State)
    (location : jsstring) :
  awaiting st = Some location ->
  let st1 := handleSendMessage_resume w (Fulfilled t h d) st in
  (exists wd, weather st1 = Some wd /\ temp wd = Math_round t
              /\ (t - (1 # 2) < inject_Z (temp wd))%Q
              /\ (inject_Z (temp wd) <= t + (1 # 2))%Q)
  /\ ((t < 51 # 2)%Q -> h <= 60 -> dailyGoal st1 = 2000)
  /\ ((51 # 2 <= t)%Q -> 2050 <= dailyGoal st1).
Proof.
  intros A st1. subst st1. rewrite (resume_success w t h d st location A).
  cbn [weather dailyGoal]. rewrite roundedIntake_eq.
  destruct (Math_round_nearest t) as [N1 N2]. split; [|split].
  - eexists. split; [reflexivity|]. cbn [temp]. auto.
  - intros Ht Hh. pose proof (Math_round_below t Ht).
    destruct (Z.gtb_spec (Math_round t) 25), (Z.gtb_spec h 60); lia.
  - intros Ht. pose proof (Math_round_above t Ht).
    destruct (Z.gtb_spec (Math_round t) 25), (Z.gtb_spec h 60); lia.
Qed.

Lemma temperature_rounding_witness :
  let w := mkWorld 1700000000123 0 (fun _ => 1 # 2) in
  let st := mkState [] [] true None 0 2000 [] [] [] (Some (lit "Oslo")) in
  dailyGoal (handleSendMessage_resume w (Fulfilled (127 # 5) 40 (lit "mist")) st) = 2000.
Proof.
  intros w st.
  refine (proj1 (proj2 (temperature_rounding w (127 # 5) 40 (lit "mist") st (lit "Oslo")
                          eq_refl)) _ _); [reflexivity | lia].
Defined.

(** ** The logged amount *)

Lemma digits_roundtrip (ds : jsstring) :
  forallb isDigit ds = true ->
  lit (DecimalString.NilEmpty.string_of_uint (digitsToUint ds)) = ds.
Proof.
  induction ds as [|c ds IH]; [reflexivity|].
  cbn [forallb]. intros H. apply andb_true_iff in H. destruct H as [Hc Hds].
  apply isDigit_range in Hc.
  assert (C : (c = 48 \/ c = 49 \/ c = 50 \/ c = 51 \/ c = 52 \/ c = 53 \/ c = 54
               \/ c = 55 \/ c = 56 \/ c = 57)%N) by lia.
  cbn [digitsToUint].
  destruct C as [->|[->|[->|[->|[->|[->|[->|[->|[->| ->]]]]]]]]];
    cbn [digitOf DecimalString.NilEmpty.string_of_uint];
    unfold lit in *; cbn [list_ascii_of_string map]; rewrite (IH Hds); reflexivity.
Qed.

(** On a run of digits [parseInt] yields the integer the numeral denotes. *)
Lemma parseInt_integerValue (ds : jsstring) :
  forallb isDigit ds = true -> parseInt ds = integerValue ds.
Proof.
  intros H. unfold parseInt, integerValue. rewrite (takeWhile_id _ _ H).
  rewrite <- (digits_roundtrip ds H) at 1.
  exact (uint_value (digitsToUint ds) 0).
Qed.

(** C10.  A line accepted by the volume branch contains a digit run; the
    amount logged is the integer that the first digit run denotes as a
    decimal numeral, and the default of the [|| '0'] fallback is never
    used. *)
Theorem volume_fallback_unreachable (s : jsstring) :
  matchVolume s = true ->
  exists run,
    FirstDigitRun s run
    /\ firstDigitRun s = Some run
    /\ (forall d, orDefault (firstDigitRun s) d = run)
    /\ loggedAmount s = integerValue run
    /\ classify s = VolumeLog (integerValue run).
Proof.
  intros H. destruct (volume_amount s H) as (run & E & F & D & A).
  exists run. assert (V : parseInt run = integerValue run).
  { apply parseInt_integerValue. destruct F as (pre & post & _ & _ & _ & Hd & _). exact Hd. }
  repeat split; auto; try congruence.
  unfold classify.
  rewrite (digit_not_location s (VolumePattern_has_digit s (proj1 (matchVolume_spec s) H))), H.
  congruence.
Qed.

(** "a1 250mL" logs 1, the first digit run; "drink 0250 ml now" logs 250. *)
Lemma volume_fallback_unreachable_witness :
  loggedAmount (lit "a1 250mL") = 1
  /\ classify (lit "drink 0250 ml now") = VolumeLog 250.
Proof.
  split.
  - destruct (volume_fallback_unreachable (lit "a1 250mL") eq_refl)
      as (run & _ & E & _ & A & _).
    rewrite A. vm_compute in E. injection E as <-. reflexivity.
  - destruct (volume_fallback_unreachable (lit "drink 0250 ml now") eq_refl)
      as (run & _ & E & _ & _ & C).
    rewrite C. vm_compute in E. injection E as <-. reflexivity.
Defined.
